(** * miuz: a finite-state-machine runtime (src/index.ts)

    Shallow embedding of [MachineConfiguration] and [MachineInstance]
    and proofs about the transition engine, the guard layer, the
    subscription registry, the delayed (after) transitions and the
    configuration factory.

    Modelling conventions.
    - A JavaScript plain-data value is a tree ([value]); an object is the
      list of its own enumerable properties in enumeration order, because
      [JSON.stringify] and [for ... in] observe that order.
    - The state table and the [on] table are only ever read by key, so
      they are finite maps of their own properties; a read [table[key]]
      of a key that is not an own property goes on to [Object.prototype]
      and finds its member of that name, if there is one ([read_state],
      [read_event]). The [after] table and the guard table are enumerated
      with [for ... in], which lists own properties only (the members of
      [Object.prototype] are not enumerable), so they are lists in
      enumeration order.
    - A context is plain data, and a guard is keyed by a field of the
      context type.
    - Hooks, actions and guard predicates are functions of the context;
      subscribers are observers named by an identity, and every call made
      by the engine to an action, a hook, a guard or a subscriber is
      recorded in a log, in order.
    - The tests [x && ...] and [!x] of the source are tests of presence
      when [x] is an object or a function, which are always truthy; a
      target is a string, and the empty string is falsy.
    - [setTimeout] adds a pending callback to the instance's timer queue;
      the host decides which pending callback fires next.
    - A thrown [Error] aborts the call and leaves the instance as it was
      at the point of the throw; reading a property of [undefined] throws
      a [TypeError]. *)

From Stdlib Require Import ZArith Ascii String DecimalString.
From stdpp Require Import base option list strings gmap.

Local Open Scope string_scope.

(** ** JavaScript plain data *)

#[local] Set Warnings "-register-all".

Inductive value : Type :=
| VUndefined
| VNull
| VBool (b : bool)
| VNumber (z : Z)
| VString (s : string)
| VArray (l : list value)
| VObject (o : list (string * value)).

(** An object: own enumerable string-keyed properties, in the order
    [OrdinaryOwnPropertyKeys] lists them. *)
Definition obj : Type := list (string * value).

(** *** Property keys that are array indices

    Own keys that are canonical array indices (0 .. 2^32 - 2) come first,
    in ascending numeric order; the other string keys follow in insertion
    order. *)

Definition digit_of (c : ascii) : option N :=
  let n := N_of_ascii c in
  if ((48 <=? n) && (n <=? 57))%N then Some (n - 48)%N else None.

Fixpoint digits_value (s : string) (acc : N) : option N :=
  match s with
  | EmptyString => Some acc
  | String c s' =>
      match digit_of c with
      | Some d => digits_value s' (10 * acc + d)%N
      | None => None
      end
  end.

Definition array_index (k : string) : option N :=
  match k with
  | EmptyString => None
  | String c rest =>
      match digit_of c with
      | None => None
      | Some d =>
          if ((d =? 0)%N && negb (String.eqb rest EmptyString)) then None
          else if (10 <? String.length rest)%nat then None
          else
            match digits_value rest d with
            | Some n => if (n <? 4294967295)%N then Some n else None
            | None => None
            end
      end
  end.

(** [o[k]]: reading a missing property gives [undefined]. *)
Fixpoint obj_get (k : string) (o : obj) : value :=
  match o with
  | [] => VUndefined
  | (k', v) :: o' => if String.eqb k' k then v else obj_get k o'
  end.

Fixpoint obj_has (k : string) (o : obj) : bool :=
  match o with
  | [] => false
  | (k', _) :: o' => String.eqb k' k || obj_has k o'
  end.

Fixpoint obj_replace (k : string) (v : value) (o : obj) : obj :=
  match o with
  | [] => []
  | (k', v') :: o' =>
      if String.eqb k' k then (k', v) :: o' else (k', v') :: obj_replace k v o'
  end.

(** Position of a new array-index key [n]: before the first key that is
    not an array index or is a larger one. *)
Fixpoint obj_insert_index (n : N) (k : string) (v : value) (o : obj) : obj :=
  match o with
  | [] => [(k, v)]
  | (k', v') :: o' =>
      match array_index k' with
      | Some n' =>
          if (n <? n')%N then (k, v) :: (k', v') :: o'
          else (k', v') :: obj_insert_index n k v o'
      | None => (k, v) :: (k', v') :: o'
      end
  end.

(** [o[k] = v] *)
Definition obj_set (k : string) (v : value) (o : obj) : obj :=
  if obj_has k o then obj_replace k v o
  else
    match array_index k with
    | Some n => obj_insert_index n k v o
    | None => (o ++ [(k, v)])%list
    end.

(** [delete o[k]] *)
Fixpoint obj_delete (k : string) (o : obj) : obj :=
  match o with
  | [] => []
  | (k', v') :: o' =>
      if String.eqb k' k then o' else (k', v') :: obj_delete k o'
  end.

(** [structuredClone]: a deep copy. Values are immutable trees, so the
    copy of a tree is a tree with the same shape and the same leaves. *)
Fixpoint structuredClone (v : value) : value :=
  match v with
  | VArray l => VArray (map structuredClone l)
  | VObject o => VObject (map (fun kv => (fst kv, structuredClone (snd kv))) o)
  | _ => v
  end.

Definition clone_obj (o : obj) : obj :=
  map (fun kv => (fst kv, structuredClone (snd kv))) o.

(** ** [JSON.stringify] on plain data *)

Definition dquote : ascii := ascii_of_nat 34.
Definition backslash : ascii := ascii_of_nat 92.

Definition hex_digit (n : N) : ascii :=
  if (n <? 10)%N then ascii_of_N (48 + n) else ascii_of_N (87 + n).

(** The escape of one character inside a JSON string (QuoteJSONString). *)
Definition json_escape (c : ascii) : string :=
  let n := N_of_ascii c in
  if (n =? 34)%N then String backslash (String dquote EmptyString)
  else if (n =? 92)%N then String backslash (String backslash EmptyString)
  else if (n =? 8)%N then String backslash "b"
  else if (n =? 9)%N then String backslash "t"
  else if (n =? 10)%N then String backslash "n"
  else if (n =? 12)%N then String backslash "f"
  else if (n =? 13)%N then String backslash "r"
  else if (n <? 32)%N then
    String backslash
      ("u00" ++ String (hex_digit (n / 16)) (String (hex_digit (n mod 16)) EmptyString))
  else String c EmptyString.

Fixpoint json_escape_string (s : string) : string :=
  match s with
  | EmptyString => EmptyString
  | String c s' => json_escape c ++ json_escape_string s'
  end.

Definition json_quote (s : string) : string :=
  String dquote (json_escape_string s ++ String dquote EmptyString).

Fixpoint join_comma (l : list string) : string :=
  match l with
  | [] => EmptyString
  | [s] => s
  | s :: l' => s ++ "," ++ join_comma l'
  end.

(** [None] is the [undefined] result of SerializeJSONProperty. Numbers
    are integers well inside the safe range, printed in decimal. *)
Fixpoint json_value (v : value) : option string :=
  match v with
  | VUndefined => None
  | VNull => Some "null"
  | VBool true => Some "true"
  | VBool false => Some "false"
  | VNumber z => Some (NilZero.string_of_int (Z.to_int z))
  | VString s => Some (json_quote s)
  | VArray l =>
      Some ("[" ++ join_comma (map (fun x => default "null" (json_value x)) l) ++ "]")
  | VObject o =>
      Some ("{" ++ join_comma
              (omap (fun kv =>
                       match json_value (snd kv) with
                       | Some s => Some (json_quote (fst kv) ++ ":" ++ s)
                       | None => None
                       end) o) ++ "}")
  end.

(** [JSON.stringify(o)] for an object [o]. *)
Definition JSON_stringify (o : obj) : string :=
  default EmptyString (json_value (VObject o)).

Local Open Scope list_scope.

(** ** The state definition table ([TStateObject]) *)

(** An entry of an [on] or [after] table. An action mutates the context in
    place and may read the event data. *)
Record handler : Type := {
  target : option string;
  action : option (obj -> value -> obj)
}.

Record TStateObject : Type := {
  entry : option (obj -> obj);
  exit : option (obj -> obj);
  on : option (gmap string handler);
  after : option (list (string * handler))
}.

(** ** Reading a table by key

    [table[key]] is a property read. When [key] is not an own property
    of [table], the read goes on to the prototype of the table, which is
    [Object.prototype] for an object literal, and returns its member of
    that name; only when there is none either is the result [undefined]. *)

(** The names of the members of [Object.prototype]. *)
Definition Object_prototype : list string :=
  ["constructor"; "__defineGetter__"; "__defineSetter__"; "hasOwnProperty";
   "__lookupGetter__"; "__lookupSetter__"; "isPrototypeOf";
   "propertyIsEnumerable"; "toString"; "valueOf"; "__proto__";
   "toLocaleString"].

Definition prototype_member (key : string) : bool :=
  existsb (String.eqb key) Object_prototype.

(** A member of [Object.prototype] is a function, or [Object.prototype]
    itself for [__proto__]: it is truthy, and none of [entry], [exit],
    [on], [after], [target], [action] is a property of it, so each of
    them reads as [undefined]. Read as a state object or as an event
    object, it is one on which every property the engine reads is
    missing. *)
Definition inherited_state : TStateObject :=
  {| entry := None; exit := None; on := None; after := None |}.

Definition inherited_event : handler :=
  {| target := None; action := None |}.

(** [table[key]], where a member of [Object.prototype] reads as
    [inherited]; [None] is [undefined]. *)
Definition read {A} (inherited : A) (table : gmap string A)
    (key : string) : option A :=
  match table !! key with
  | Some v => Some v
  | None => if prototype_member key then Some inherited else None
  end.

(** [this.statesImplementation[stateID]] *)
Definition read_state : gmap string TStateObject -> string -> option TStateObject :=
  read inherited_state.

(** [currentStateEvents[event]] *)
Definition read_event : gmap string handler -> string -> option handler :=
  read inherited_event.

(** ** What subscribers and hooks observe *)

Inductive eventType : Type := State_Change | Context_Change.

Record snapshot : Type := {
  snap_context : obj;
  snap_state : string
}.

(** A subscriber is a callback; [sub !== subscriber] compares references,
    so a subscriber is known by its identity. *)
Definition subscriber : Type := nat.

(** One call made by the engine. Hook calls carry the value of
    [this.stateID] and of the context at the moment of the call. *)
Inductive call : Type :=
| CallExit (current : string) (ctx : obj)
| CallEntry (current : string) (ctx : obj)
| CallAction (ctx : obj) (data : value)
| CallGuard (key : string) (ctx : obj) (verdict : bool)
| CallSubscriber (sub : subscriber) (snap : snapshot) (ty : eventType).

(** A pending [setTimeout] callback: the closure keeps the target and the
    action of the [after] entry that scheduled it. *)
Record timer : Type := {
  delay : string;
  afterEventTarget : option string;
  afterEventAction : option (obj -> value -> obj)
}.

(** ** [MachineInstance] *)

Record MachineInstance : Type := {
  statesImplementation : gmap string TStateObject;
  initialState : string;
  context : obj;
  guards : option (list (string * (obj -> bool)));
  stateID : string;
  stateObject : option TStateObject;
  subscribers : list subscriber;
  timers : list timer
}.

(** The constructor: [stateID] is the initial state and [stateObject] is
    [statesImplementation[initialState]], which is undefined when the
    table has no property of that name, own or inherited. *)
Definition new_MachineInstance (states : gmap string TStateObject)
    (initial : string) (ctx : obj)
    (gs : option (list (string * (obj -> bool)))) : MachineInstance :=
  {| statesImplementation := states;
     initialState := initial;
     context := ctx;
     guards := gs;
     stateID := initial;
     stateObject := read_state states initial;
     subscribers := [];
     timers := [] |}.

Definition set_context (c : obj) (i : MachineInstance) : MachineInstance :=
  {| statesImplementation := statesImplementation i;
     initialState := initialState i;
     context := c;
     guards := guards i;
     stateID := stateID i;
     stateObject := stateObject i;
     subscribers := subscribers i;
     timers := timers i |}.

Definition set_state (s : string) (so : option TStateObject)
    (i : MachineInstance) : MachineInstance :=
  {| statesImplementation := statesImplementation i;
     initialState := initialState i;
     context := context i;
     guards := guards i;
     stateID := s;
     stateObject := so;
     subscribers := subscribers i;
     timers := timers i |}.

Definition set_subscribers (l : list subscriber)
    (i : MachineInstance) : MachineInstance :=
  {| statesImplementation := statesImplementation i;
     initialState := initialState i;
     context := context i;
     guards := guards i;
     stateID := stateID i;
     stateObject := stateObject i;
     subscribers := l;
     timers := timers i |}.

Definition set_timers (l : list timer)
    (i : MachineInstance) : MachineInstance :=
  {| statesImplementation := statesImplementation i;
     initialState := initialState i;
     context := context i;
     guards := guards i;
     stateID := stateID i;
     stateObject := stateObject i;
     subscribers := subscribers i;
     timers := l |}.

(** ** Method bodies: state, log and exceptions *)

Inductive error : Type :=
| UnknownState
| MissingEventTable
| UnknownEvent
| TypeError.

(** The result of running a method on an instance: what it returned or
    threw, the instance afterwards, and the calls it made, in order. *)
Record outcome (A : Type) : Type := {
  result : error + A;
  final : MachineInstance;
  calls : list call
}.
Arguments result {A} _.
Arguments final {A} _.
Arguments calls {A} _.

Definition M (A : Type) : Type := MachineInstance -> outcome A.

Definition ret {A} (a : A) : M A :=
  fun i => {| result := inr a; final := i; calls := [] |}.

Definition throw {A} (e : error) : M A :=
  fun i => {| result := inl e; final := i; calls := [] |}.

Definition bind {A B} (c : M A) (k : A -> M B) : M B :=
  fun i =>
    let r := c i in
    match result r with
    | inl e => {| result := inl e; final := final r; calls := calls r |}
    | inr a =>
        let r' := k a (final r) in
        {| result := result r'; final := final r';
           calls := (calls r ++ calls r')%list |}
    end.

Definition this : M MachineInstance :=
  fun i => {| result := inr i; final := i; calls := [] |}.

Definition update (f : MachineInstance -> MachineInstance) : M unit :=
  fun i => {| result := inr tt; final := f i; calls := [] |}.

Definition record (l : list call) : M unit :=
  fun i => {| result := inr tt; final := i; calls := l |}.

Notation "'let*' x ':=' c 'in' k" := (bind c (fun x => k))
  (at level 10, x name, c at level 100, k at level 200).
Notation "c '>>' k" := (bind c (fun _ => k))
  (at level 100, k at level 200, right associativity).

(** [ToBoolean] of a string: only the empty string is falsy. *)
Definition truthy (s : string) : bool := negb (String.eqb s EmptyString).

Definition current_snapshot (i : MachineInstance) : snapshot :=
  {| snap_context := context i; snap_state := stateID i |}.

(** [this.subscribers.forEach(...)] *)
Definition notify (ty : eventType) : M unit :=
  let* i := this in
  record (map (fun sub => CallSubscriber sub (current_snapshot i) ty)
              (subscribers i)).

(** [hook && hook(this.context)] *)
Definition run_hook (tag : string -> obj -> call)
    (hook : option (obj -> obj)) : M unit :=
  match hook with
  | None => ret tt
  | Some f =>
      let* i := this in
      record [tag (stateID i) (context i)] >>
      update (set_context (f (context i)))
  end.

Definition mk_timer (e : string * handler) : timer :=
  {| delay := fst e;
     afterEventTarget := target (snd e);
     afterEventAction := action (snd e) |}.

(** [MachineInstance.setState] *)
Definition setState (stateID0 : string) : M unit :=
  let* i := this in
  match read_state (statesImplementation i) stateID0 with
  | None => throw UnknownState
  | Some _ =>
      (if negb (String.eqb stateID0 (stateID i)) then
         match stateObject i with
         | None => throw TypeError
         | Some so => run_hook CallExit (exit so)
         end
       else ret tt) >>
      update (fun i =>
        set_state stateID0 (read_state (statesImplementation i) stateID0) i) >>
      let* i := this in
      match stateObject i with
      | None => throw TypeError
      | Some so =>
          run_hook CallEntry (entry so) >>
          notify State_Change >>
          match after so with
          | None => ret tt
          | Some afterEvents =>
              update (fun i => set_timers (timers i ++ map mk_timer afterEvents) i)
          end
      end
  end.

(** One turn of the guard loop:
    [if (!this.guards[guard](this.context)) this.context[guard] = clonedContext[guard]].
    A guard is keyed by a field of the context type, and a context is
    plain data: [clonedContext[guard]] is the field of the snapshot, or
    [undefined] when the snapshot has no such field. (For a key that the
    snapshot lacks and that names a member of [Object.prototype], the
    source reads that member, which is not plain data; the statements
    about the value written back leave such keys out.) *)
Definition check_guard (clonedContext : obj) (g : string * (obj -> bool)) : M unit :=
  let* i := this in
  let ok := snd g (context i) in
  record [CallGuard (fst g) (context i) ok] >>
  if ok then ret tt
  else update (set_context (obj_set (fst g) (obj_get (fst g) clonedContext) (context i))).

Fixpoint check_guards (clonedContext : obj)
    (gs : list (string * (obj -> bool))) : M unit :=
  match gs with
  | [] => ret tt
  | g :: gs' => check_guard clonedContext g >> check_guards clonedContext gs'
  end.

(** [MachineInstance.executeAction] *)
Definition executeAction (act : obj -> value -> obj) (data : value) : M unit :=
  let* i := this in
  let clonedContext := clone_obj (context i) in
  record [CallAction (context i) data] >>
  update (set_context (act (context i) data)) >>
  (let* i := this in
   match guards i with
   | None => ret tt
   | Some gs => check_guards clonedContext gs
   end) >>
  let* i := this in
  if negb (String.eqb (JSON_stringify clonedContext) (JSON_stringify (context i)))
  then notify Context_Change
  else ret tt.

(** [MachineInstance.start] *)
Definition start : M unit :=
  let* i := this in
  setState (initialState i).

(** The tail shared by [send] and by a timer callback:
    [action && this.executeAction(action, data); target && this.setState(target)] *)
Definition run_handler (act : option (obj -> value -> obj))
    (tgt : option string) (data : value) : M unit :=
  match act with
  | Some a => executeAction a data
  | None => ret tt
  end >>
  match tgt with
  | Some t => if truthy t then setState t else ret tt
  | None => ret tt
  end.

(** [MachineInstance.send()(event, ...data)]: [data] is the rest
    parameter, so the action receives the array of the extra arguments. *)
Definition send (event : string) (data : list value) : M unit :=
  let* i := this in
  match stateObject i with
  | None => throw TypeError
  | Some so =>
      match on so with
      | None => throw MissingEventTable
      | Some currentStateEvents =>
          match read_event currentStateEvents event with
          | None => throw UnknownEvent
          | Some eventObject =>
              run_handler (action eventObject) (target eventObject) (VArray data)
          end
      end
  end.

(** The closure returned by [subscribe]:
    [this.subscribers = this.subscribers.filter((sub) => sub !== subscriber)] *)
Definition unsubscribe (s : subscriber) : M unit :=
  update (fun i =>
    set_subscribers (filter (fun sub => sub ≠ s) (subscribers i)) i).

(** [MachineInstance.subscribe] *)
Definition subscribe (s : subscriber) : M (M unit) :=
  update (fun i => set_subscribers (subscribers i ++ [s]) i) >>
  ret (unsubscribe s).

(** [MachineInstance.getSnapshot] *)
Definition getSnapshot : M snapshot :=
  let* i := this in ret (current_snapshot i).

(** The host runs the [n]-th pending timer callback:
    [afterEventAction && this.executeAction(afterEventAction);
     afterEventTarget && this.setState(afterEventTarget)] *)
Definition fire (n : nat) : M unit :=
  let* i := this in
  match timers i !! n with
  | None => ret tt
  | Some t =>
      update (fun i => set_timers (take n (timers i) ++ drop (S n) (timers i)) i) >>
      run_handler (afterEventAction t) (afterEventTarget t) VUndefined
  end.

(** ** Closed forms used in the statements *)

(** The context after an optional hook has run. *)
Definition apply_hook (hook : option (obj -> obj)) (c : obj) : obj :=
  match hook with
  | Some f => f c
  | None => c
  end.

(** The log entry of an optional hook: one call if the hook is present. *)
Definition hook_calls (tag : string -> obj -> call)
    (hook : option (obj -> obj)) (current : string) (c : obj) : list call :=
  match hook with
  | Some _ => [tag current c]
  | None => []
  end.

(** One notification pass over a subscriber list. *)
Definition notifications (ty : eventType) (snap : snapshot)
    (subs : list subscriber) : list call :=
  map (fun sub => CallSubscriber sub snap ty) subs.

(** The timers a state schedules when it is entered. *)
Definition after_timers (so : TStateObject) : list timer :=
  match after so with
  | Some afterEvents => map mk_timer afterEvents
  | None => []
  end.

Definition is_notification (c : call) : bool :=
  match c with
  | CallSubscriber _ _ _ => true
  | _ => false
  end.

Definition is_guard_call (c : call) : bool :=
  match c with
  | CallGuard _ _ _ => true
  | _ => false
  end.

Definition is_hook_call (c : call) : bool :=
  match c with
  | CallExit _ _ | CallEntry _ _ => true
  | _ => false
  end.

(** The guard loop as a function of the live context: one turn, the
    context after the whole loop, and the guard calls it makes. *)
Definition guard_step (pre : obj) (c : obj) (g : string * (obj -> bool)) : obj :=
  if snd g c then c else obj_set (fst g) (obj_get (fst g) pre) c.

Fixpoint guards_ctx (pre : obj) (gs : list (string * (obj -> bool)))
    (c : obj) : obj :=
  match gs with
  | [] => c
  | g :: gs' => guards_ctx pre gs' (guard_step pre c g)
  end.

Fixpoint guards_log (pre : obj) (gs : list (string * (obj -> bool)))
    (c : obj) : list call :=
  match gs with
  | [] => []
  | g :: gs' => CallGuard (fst g) c (snd g c) :: guards_log pre gs' (guard_step pre c g)
  end.

(** The outcome of a transition that goes through: [c1] is the context
    once the exit step is over and [exit_calls] what that step logged. *)
Definition entered (i : MachineInstance) (t : string) (def : TStateObject)
    (c1 : obj) (exit_calls : list call) : outcome unit :=
  let c2 := apply_hook (entry def) c1 in
  {| result := inr tt;
     final :=
       {| statesImplementation := statesImplementation i;
          initialState := initialState i;
          context := c2;
          guards := guards i;
          stateID := t;
          stateObject := Some def;
          subscribers := subscribers i;
          timers := timers i ++ after_timers def |};
     calls :=
       exit_calls
       ++ hook_calls CallEntry (entry def) t c1
       ++ notifications State_Change
            {| snap_context := c2; snap_state := t |} (subscribers i) |}.

(** ** A small machine used to run the theorems on concrete input

    Two states. [idle] has both hooks, an [on] table and one delayed
    transition; [busy] has an entry hook only and no [on] table. *)

Definition mark (k : string) : obj -> obj :=
  fun ctx => obj_set k (VBool true) ctx.

(** [go] stores the event data and leads to [busy]; [lost] names a state
    that does not exist; [blank] names the empty string. *)
Definition go_handler : handler :=
  {| target := Some "busy";
     action := Some (fun ctx d => obj_set "data" d ctx) |}.

Definition lost_handler : handler :=
  {| target := Some "nowhere";
     action := Some (fun ctx _ => obj_set "count" (VNumber 1) ctx) |}.

Definition blank_handler : handler :=
  {| target := Some EmptyString;
     action := Some (fun ctx _ => obj_set "count" (VNumber 2) ctx) |}.

Definition idle_events : gmap string handler :=
  <[ "go" := go_handler ]>
    (<[ "lost" := lost_handler ]> {[ "blank" := blank_handler ]}).

Definition idle_state : TStateObject :=
  {| entry := Some (mark "idle_entered");
     exit := Some (mark "idle_left");
     on := Some idle_events;
     after := Some [("100", {| target := Some "busy"; action := None |})] |}.

Definition busy_state : TStateObject :=
  {| entry := Some (mark "busy_entered");
     exit := None;
     on := None;
     after := None |}.

Definition demo_states : gmap string TStateObject :=
  <[ "idle" := idle_state ]> {[ "busy" := busy_state ]}.

Definition demo_context : obj := [("count", VNumber 0)].

(** The demo machine with two subscribers, not started. *)
Definition demo_instance : MachineInstance :=
  final ((subscribe 1 >> subscribe 2)
           (new_MachineInstance demo_states "idle" demo_context None)).

(** A guarded instance: field [a] must stay at most 10 and field [b] at
    most [a]; field [note] has no guard. *)

Definition num (v : value) : Z :=
  match v with
  | VNumber z => z
  | _ => 0%Z
  end.

Definition a_small : obj -> bool :=
  fun ctx => (num (obj_get "a" ctx) <=? 10)%Z.

Definition b_below_a : obj -> bool :=
  fun ctx => (num (obj_get "b" ctx) <=? num (obj_get "a" ctx))%Z.

Definition demo_guards : list (string * (obj -> bool)) :=
  [("a", a_small); ("b", b_below_a)].

Definition guarded_instance : MachineInstance :=
  final (subscribe 1
           (new_MachineInstance demo_states "idle"
              [("a", VNumber 5); ("b", VNumber 3); ("note", VString "old")]
              (Some demo_guards))).

(** An action writing all three fields: [a = 20; b = 15; note = "new"]. *)
Definition raise_all : obj -> value -> obj :=
  fun ctx _ =>
    obj_set "note" (VString "new")
      (obj_set "b" (VNumber 15) (obj_set "a" (VNumber 20) ctx)).

(** ** Counting what a subscriber receives *)

Definition is_notification_of (ty : eventType) (c : call) : bool :=
  match c, ty with
  | CallSubscriber _ _ State_Change, State_Change => true
  | CallSubscriber _ _ Context_Change, Context_Change => true
  | _, _ => false
  end.

Definition is_delivery (sub : subscriber) (ty : eventType) (c : call) : bool :=
  match c with
  | CallSubscriber s _ _ => Nat.eqb s sub && is_notification_of ty c
  | _ => false
  end.

Definition received (sub : subscriber) (ty : eventType) (l : list call) : nat :=
  length (filter (is_delivery sub ty) l).

(** ** The reading / editing machine of the README *)

Definition reading_state : TStateObject :=
  {| entry := None; exit := None;
     on := Some {[ "edit" := {| target := Some "editing"; action := None |} ]};
     after := None |}.

Definition editing_state : TStateObject :=
  {| entry := None; exit := None;
     on := Some (<[ "save" :=
                      {| target := Some "reading";
                         action := Some (fun ctx _ =>
                           obj_set "committed" (obj_get "value" ctx) ctx) |} ]>
                 {[ "edit" :=
                      {| target := None;
                         action := Some (fun ctx d => obj_set "value" d ctx) |} ]});
     after := None |}.

Definition editor_states : gmap string TStateObject :=
  <[ "reading" := reading_state ]> {[ "editing" := editing_state ]}.

Definition editor_context : obj :=
  [("committed", VString EmptyString); ("value", VString EmptyString)].

Definition editor_instance : MachineInstance :=
  new_MachineInstance editor_states "reading" editor_context None.

(** [start(); send('edit'); send('edit', 'A'); send('save')], watched by
    subscriber 1 from before [start]. *)
Definition editor_session : M snapshot :=
  subscribe 1 >>
  start >>
  send "edit" [] >>
  send "edit" [VString "A"] >>
  send "save" [] >>
  getSnapshot.

(** The same session with the subscriber registered after [start], as in
    the README. *)
Definition editor_session_late : M snapshot :=
  start >>
  subscribe 1 >>
  send "edit" [] >>
  send "edit" [VString "A"] >>
  send "save" [] >>
  getSnapshot.

(** ** Context-change detection as the specification words it

    A change is reported exactly when some field's final value differs
    from its value before the action. *)
Definition reports_field_changes (i : MachineInstance)
    (act : obj -> value -> obj) (data : value) : Prop :=
  let r := executeAction act data i in
  (exists sub snap, CallSubscriber sub snap Context_Change ∈ calls r) <->
  (exists k, obj_get k (context (final r)) <> obj_get k (context i)).

(** An action that deletes field [a] and writes it back with the value it
    had: [{a: 1, b: 2}] becomes [{b: 2, a: 1}]. *)
Definition reinsert_a : obj -> value -> obj :=
  fun ctx _ => obj_set "a" (obj_get "a" ctx) (obj_delete "a" ctx).

Definition reorder_instance : MachineInstance :=
  final (subscribe 1
           (new_MachineInstance demo_states "idle"
              [("a", VNumber 1); ("b", VNumber 2)] None)).

(** An action replacing [[undefined]] by [[null]]; both serialize to
    [[null]]. *)
Definition null_for_undefined : obj -> value -> obj :=
  fun ctx _ => obj_set "a" (VArray [VNull]) ctx.

Definition hole_instance : MachineInstance :=
  final (subscribe 1
           (new_MachineInstance demo_states "idle"
              [("a", VArray [VUndefined])] None)).

(** ** What the embedding application and the host do with an instance *)

(** One top-level call on an instance: a public method, the closure
    returned by an earlier [subscribe], or the host running a pending
    timer callback. *)
Inductive op : Type :=
| OpStart
| OpSend (event : string) (data : list value)
| OpSubscribe (s : subscriber)
| OpUnsubscribe (s : subscriber)
| OpFire (n : nat).

Definition run_op (o : op) : M unit :=
  match o with
  | OpStart => start
  | OpSend event data => send event data
  | OpSubscribe s => subscribe s >> ret tt
  | OpUnsubscribe s => unsubscribe s
  | OpFire n => fire n
  end.

(** A run of top-level calls. A call that throws is over; the instance
    stays as the throw left it and the next call finds it so. *)
Record session : Type := {
  answers : list (error + unit);
  last : MachineInstance;
  heard : list call
}.

Fixpoint run_ops (ops : list op) (i : MachineInstance) : session :=
  match ops with
  | [] => {| answers := []; last := i; heard := [] |}
  | o :: ops' =>
      let r := run_op o i in
      let rest := run_ops ops' (final r) in
      {| answers := result r :: answers rest;
         last := last rest;
         heard := calls r ++ heard rest |}
  end.

(** Every call except the calls made to subscriber [s]. *)
Definition not_to (s : subscriber) (c : call) : bool :=
  match c with
  | CallSubscriber sub _ _ => negb (Nat.eqb sub s)
  | _ => true
  end.

(** The instance with [s] removed from the subscriber list. *)
Definition without (s : subscriber) (i : MachineInstance) : MachineInstance :=
  set_subscribers (filter (fun sub => sub ≠ s) (subscribers i)) i.

(** A method body is blind to subscriber [s] when running it without [s]
    gives the same result, the same instance up to the removal of [s],
    and the same calls but for those to [s]. *)
Definition blind_to {A} (s : subscriber) (c : M A) : Prop :=
  forall i,
    c (without s i) =
    {| result := result (c i);
       final := without s (final (c i));
       calls := filter (not_to s) (calls (c i)) |}.

(** The current state has a state object, the one the table gives when
    read at [stateID]. It holds of every instance built on an initial
    state that the table can be read at, and every call keeps it. *)
Definition current_state_defined (i : MachineInstance) : Prop :=
  is_Some (stateObject i) /\
  stateObject i = read_state (statesImplementation i) (stateID i).

(** ** A machine with a state named by the empty string

    [declare: ['', 'armed']]: state [armed] schedules a delayed transition
    to the state [''] and has an event leading there; both entries also
    have an action. *)

Definition armed_state : TStateObject :=
  {| entry := None;
     exit := Some (mark "armed_left");
     on := Some {[ "drop" := {| target := Some EmptyString;
                                action := Some (fun ctx _ => mark "dropped" ctx) |} ]};
     after := Some [("100", {| target := Some EmptyString;
                               action := Some (fun ctx _ => mark "rang" ctx) |})] |}.

Definition unnamed_state : TStateObject :=
  {| entry := Some (mark "unnamed_entered");
     exit := None;
     on := None;
     after := None |}.

Definition armed_states : gmap string TStateObject :=
  <[ "armed" := armed_state ]> {[ EmptyString := unnamed_state ]}.

Definition armed_instance : MachineInstance :=
  final (subscribe 1 (new_MachineInstance armed_states "armed" [] None)).

(** ** A machine with a target named like a member of [Object.prototype]

    One state, [home], with an exit hook; its event [leave] has an action
    and the target [toString], which is not a state of the table. *)

Definition leave_handler : handler :=
  {| target := Some "toString";
     action := Some (fun ctx _ => mark "acted" ctx) |}.

Definition home_state : TStateObject :=
  {| entry := None;
     exit := Some (mark "home_left");
     on := Some {[ "leave" := leave_handler ]};
     after := None |}.

Definition home_states : gmap string TStateObject :=
  {[ "home" := home_state ]}.

Definition home_instance : MachineInstance :=
  final (subscribe 1 (new_MachineInstance home_states "home" [] None)).

(** ** [MachineConfiguration]

    [create] is about object identity: which context object the new
    instance holds. Context objects therefore live in a store, at
    locations; the configuration and the caller hold locations, and
    [structuredClone] allocates a new object. The fields of a context are
    value trees, so the copy shares nothing with the original. *)

Module Configuration.

Abbreviation loc := positive.
Abbreviation heap := (gmap positive obj).

Record MachineConfiguration : Type := {
  stateDeclaration : list string;
  statesImplementation : gmap string TStateObject;
  initialState : string;
  context : loc
}.

(** [new MachineConfiguration(config)]: the four properties of [config]
    are stored as they are; nothing is checked. *)
Definition new_MachineConfiguration (declare : list string)
    (states : gmap string TStateObject) (initial : string) (ctx : loc) :
    MachineConfiguration :=
  {| stateDeclaration := declare;
     statesImplementation := states;
     initialState := initial;
     context := ctx |}.

(** The object a caller passes to [create]; a property the caller left
    out reads as [undefined]. *)
Record create_argument : Type := {
  arg_context : option loc;
  arg_initialState : option string
}.

(** The arguments [create] hands to [new MachineInstance]; [None] is
    [undefined]. *)
Record created : Type := {
  new_statesImplementation : gmap string TStateObject;
  new_initialState : option string;
  new_context : option loc
}.

(** [structuredClone(context)] for a reference, or for [undefined]. *)
Definition clone_at (c : option loc) (h : heap) : option loc * heap :=
  match c with
  | None => (None, h)
  | Some l =>
      let l' := fresh (dom h) in
      (Some l', <[ l' := clone_obj (h !!! l) ]> h)
  end.

(** [MachineConfiguration.create]: the default object replaces the
    argument only when the caller passes none. *)
Definition create (cfg : MachineConfiguration) (arg : option create_argument)
    (h : heap) : created * heap :=
  let a := match arg with
           | Some a => a
           | None => {| arg_context := Some (context cfg);
                        arg_initialState := Some (initialState cfg) |}
           end in
  let (c, h') := clone_at (arg_context a) h in
  ({| new_statesImplementation := statesImplementation cfg;
      new_initialState := arg_initialState a;
      new_context := c |}, h').

(** The running instance behind what [create] returned, when both
    constructor arguments are defined. *)
Definition instance_of (r : created) (h : heap) : option MachineInstance :=
  match new_initialState r, new_context r with
  | Some s, Some l =>
      match h !! l with
      | Some o => Some (new_MachineInstance (new_statesImplementation r) s o None)
      | None => None
      end
  | _, _ => None
  end.

(** The claim as the specification words it: each of the two falls
    back to the configuration's value when the caller did not supply
    it, and the context of the instance is a fresh copy of the chosen
    context. *)
Definition fills_in_defaults (cfg : MachineConfiguration)
    (arg : option create_argument) (h : heap) : Prop :=
  let r := fst (create cfg arg h) in
  let h' := snd (create cfg arg h) in
  let chosen_context := default (context cfg) (arg ≫= arg_context) in
  let chosen_initial := default (initialState cfg) (arg ≫= arg_initialState) in
  new_initialState r = Some chosen_initial /\
  exists l, new_context r = Some l /\ (l ∉ dom h) /\
            h' !! l = Some (clone_obj (h !!! chosen_context)).

(** The editor configuration, its context stored at location 1. *)
Definition editor_configuration : MachineConfiguration :=
  {| stateDeclaration := ["reading"; "editing"];
     statesImplementation := editor_states;
     initialState := "reading";
     context := 1%positive |}.

Definition editor_heap : heap :=
  <[ 2%positive := [("committed", VString "x"); ("value", VString "y")] ]>
    {[ 1%positive := editor_context ]}.

End Configuration.

(** ** Instances built by the constructor and run by top-level calls *)

(** How many times a callback is registered. *)
Definition registrations (s : subscriber) (subs : list subscriber) : nat :=
  length (filter (fun sub => sub = s) subs).

(** What stays true of an instance built on [states], [initial] and [gs]:
    the three are never written again, [stateObject] is what the table
    gives when read at [stateID], the current state is the initial one or
    a name the table can be read at, and every pending timer was made
    from an [after] entry of a state of the table. *)
Definition built_on (states : gmap string TStateObject) (initial : string)
    (gs : option (list (string * (obj -> bool)))) (i : MachineInstance) : Prop :=
  statesImplementation i = states /\
  initialState i = initial /\
  guards i = gs /\
  stateObject i = read_state states (stateID i) /\
  (stateID i = initial \/ is_Some (read_state states (stateID i))) /\
  (forall tm, tm ∈ timers i ->
     exists st def evs e,
       states !! st = Some def /\ after def = Some evs /\ e ∈ evs /\
       tm = mk_timer e).

(** * Proofs *)

(** ** Basic facts about property access *)

Lemma obj_get_replace_eq (k : string) (v : value) (o : obj) :
  obj_has k o = true -> obj_get k (obj_replace k v o) = v.
Proof.
  induction o as [|[k' v'] o IH]; simpl; [discriminate|].
  destruct (String.eqb k' k) eqn:E; simpl; intros H.
  - now rewrite E.
  - rewrite E. auto.
Qed.

Lemma obj_get_replace_ne (k k' : string) (v : value) (o : obj) :
  k <> k' -> obj_get k' (obj_replace k v o) = obj_get k' o.
Proof.
  intros Hne. induction o as [|[k0 v0] o IH]; simpl; [reflexivity|].
  destruct (String.eqb k0 k) eqn:E; simpl.
  - apply String.eqb_eq in E. subst k0.
    destruct (String.eqb k k') eqn:E'; [|reflexivity].
    apply String.eqb_eq in E'. contradiction.
  - destruct (String.eqb k0 k'); auto.
Qed.

Lemma obj_get_absent (k : string) (o : obj) :
  obj_has k o = false -> obj_get k o = VUndefined.
Proof.
  induction o as [|[k' v'] o IH]; simpl; [reflexivity|].
  destruct (String.eqb k' k); simpl; [discriminate|auto].
Qed.

Lemma obj_get_insert_index_eq (n : N) (k : string) (v : value) (o : obj) :
  obj_has k o = false -> obj_get k (obj_insert_index n k v o) = v.
Proof.
  induction o as [|[k' v'] o IH]; simpl.
  - now rewrite String.eqb_refl.
  - destruct (String.eqb k' k) eqn:E; simpl; [discriminate|]. intros H.
    destruct (array_index k') as [n'|]; [destruct (n <? n')%N|]; simpl;
      rewrite ?String.eqb_refl, ?E; auto.
Qed.

Lemma obj_get_insert_index_ne (n : N) (k k' : string) (v : value) (o : obj) :
  k <> k' -> obj_get k' (obj_insert_index n k v o) = obj_get k' o.
Proof.
  intros Hne.
  assert (Hk : String.eqb k k' = false) by now apply String.eqb_neq.
  induction o as [|[k0 v0] o IH]; simpl.
  - now rewrite Hk.
  - destruct (array_index k0) as [n'|]; [destruct (n <? n')%N|]; simpl;
      rewrite ?Hk; try reflexivity.
    destruct (String.eqb k0 k'); auto.
Qed.

Lemma obj_get_app_ne (k k' : string) (v : value) (o : obj) :
  k <> k' -> obj_get k' (o ++ [(k, v)])%list = obj_get k' o.
Proof.
  intros Hne. induction o as [|[k0 v0] o IH]; simpl.
  - apply String.eqb_neq in Hne. now rewrite Hne.
  - destruct (String.eqb k0 k'); auto.
Qed.

Lemma obj_get_app_eq (k : string) (v : value) (o : obj) :
  obj_has k o = false -> obj_get k (o ++ [(k, v)])%list = v.
Proof.
  induction o as [|[k0 v0] o IH]; simpl.
  - now rewrite String.eqb_refl.
  - destruct (String.eqb k0 k); simpl; [discriminate|auto].
Qed.

(** Reading back what an assignment wrote. *)
Lemma obj_get_set_eq (k : string) (v : value) (o : obj) :
  obj_get k (obj_set k v o) = v.
Proof.
  unfold obj_set. destruct (obj_has k o) eqn:H.
  - now apply obj_get_replace_eq.
  - destruct (array_index k).
    + now apply obj_get_insert_index_eq.
    + now apply obj_get_app_eq.
Qed.

(** An assignment to [k] leaves every other property as it was. *)
Lemma obj_get_set_ne (k k' : string) (v : value) (o : obj) :
  k <> k' -> obj_get k' (obj_set k v o) = obj_get k' o.
Proof.
  intros Hne. unfold obj_set. destruct (obj_has k o).
  - now apply obj_get_replace_ne.
  - destruct (array_index k).
    + now apply obj_get_insert_index_ne.
    + now apply obj_get_app_ne.
Qed.

(** A deep copy of a value is that value. *)
Lemma structuredClone_id (v : value) : structuredClone v = v.
Proof.
  revert v. fix IH 1. intros [| | | | |l|o]; simpl; try reflexivity.
  - f_equal. induction l as [|x l IHl]; simpl; [reflexivity|].
    now rewrite IH, IHl.
  - f_equal. induction o as [|[k x] o IHo]; simpl; [reflexivity|].
    now rewrite IH, IHo.
Qed.

Lemma clone_obj_id (o : obj) : clone_obj o = o.
Proof.
  unfold clone_obj. induction o as [|[k v] o IH]; simpl; [reflexivity|].
  now rewrite structuredClone_id, IH.
Qed.

(** ** Reading a table *)

Lemma read_own {A} (inherited : A) (table : gmap string A) (key : string) (v : A) :
  table !! key = Some v -> read inherited table key = Some v.
Proof. intros H. unfold read. now rewrite H. Qed.

Lemma read_None {A} (inherited : A) (table : gmap string A) (key : string) :
  read inherited table key = None <->
  table !! key = None /\ prototype_member key = false.
Proof.
  unfold read. destruct (table !! key) as [v|].
  - split; [discriminate|]. now intros [? _].
  - destruct (prototype_member key).
    + split; [discriminate|]. now intros [_ ?].
    + now split.
Qed.

Lemma read_Some {A} (inherited : A) (table : gmap string A) (key : string) (v : A) :
  read inherited table key = Some v <->
  table !! key = Some v \/
  (table !! key = None /\ prototype_member key = true /\ v = inherited).
Proof.
  unfold read. destruct (table !! key) as [w|].
  - split; [now left|]. intros [H|[H _]]; [exact H|discriminate].
  - destruct (prototype_member key).
    + split.
      * intros [= <-]. now right.
      * intros [H|(_ & _ & ->)]; [discriminate|reflexivity].
    + split; [discriminate|]. intros [H|(_ & H & _)]; discriminate.
Qed.

Lemma read_state_own (states : gmap string TStateObject) (key : string)
    (def : TStateObject) :
  states !! key = Some def -> read_state states key = Some def.
Proof. apply read_own. Qed.

Lemma read_event_own (evs : gmap string handler) (key : string) (h : handler) :
  evs !! key = Some h -> read_event evs key = Some h.
Proof. apply read_own. Qed.

(** What every timer of a state object is made from: a state object
    read from the table has an [after] table only when it is an own
    property of the table. *)
Lemma read_state_after (states : gmap string TStateObject) (key : string)
    (def : TStateObject) (evs : list (string * handler)) :
  read_state states key = Some def -> after def = Some evs ->
  states !! key = Some def.
Proof.
  intros H Ha. apply read_Some in H as [H|(_ & _ & ->)]; [exact H|discriminate].
Qed.

(** ** Running the method bodies *)

Lemma set_context_same (i : MachineInstance) : set_context (context i) i = i.
Proof. now destruct i. Qed.

Lemma run_hook_run (tag : string -> obj -> call) (hook : option (obj -> obj))
    (i : MachineInstance) :
  run_hook tag hook i =
  {| result := inr tt;
     final := set_context (apply_hook hook (context i)) i;
     calls := hook_calls tag hook (stateID i) (context i) |}.
Proof.
  destruct hook; simpl.
  - reflexivity.
  - unfold ret. now rewrite set_context_same.
Qed.

Lemma notify_run (ty : eventType) (i : MachineInstance) :
  notify ty i =
  {| result := inr tt; final := i;
     calls := notifications ty (current_snapshot i) (subscribers i) |}.
Proof. reflexivity. Qed.

(** [setState] by cases: unknown target; same state (no exit step);
    another state from an instance without a current definition; another
    state, exit step first. *)
Lemma setState_cases (i : MachineInstance) (t : string) :
  setState t i =
  match read_state (statesImplementation i) t with
  | None => {| result := inl UnknownState; final := i; calls := [] |}
  | Some def =>
      if String.eqb t (stateID i) then entered i t def (context i) []
      else
        match stateObject i with
        | None => {| result := inl TypeError; final := i; calls := [] |}
        | Some cur =>
            entered i t def (apply_hook (exit cur) (context i))
              (hook_calls CallExit (exit cur) (stateID i) (context i))
        end
  end.
Proof.
  unfold setState, bind at 1, this at 1. simpl.
  destruct (read_state (statesImplementation i) t) as [def|] eqn:Ht; [|reflexivity].
  unfold entered.
  destruct (String.eqb t (stateID i)) eqn:E; simpl.
  - unfold bind, ret, update, this; simpl. rewrite Ht. simpl.
    rewrite run_hook_run. simpl.
    unfold after_timers. destruct (after def); simpl;
      rewrite ?app_nil_r; reflexivity.
  - destruct (stateObject i) as [cur|]; [|reflexivity].
    unfold bind. rewrite run_hook_run. simpl.
    rewrite Ht. simpl. rewrite run_hook_run. simpl.
    unfold after_timers. destruct (after def); simpl;
      rewrite ?app_nil_r, ?app_assoc; reflexivity.
Qed.

Lemma check_guards_run (pre : obj) (gs : list (string * (obj -> bool)))
    (i : MachineInstance) :
  check_guards pre gs i =
  {| result := inr tt;
     final := set_context (guards_ctx pre gs (context i)) i;
     calls := guards_log pre gs (context i) |}.
Proof.
  revert i. induction gs as [|g gs IH]; intros i; simpl.
  - unfold ret. now rewrite set_context_same.
  - unfold bind at 1. unfold check_guard, bind, this, record, guard_step. simpl.
    destruct (snd g (context i)) eqn:E; simpl; rewrite IH; simpl.
    + reflexivity.
    + reflexivity.
Qed.

(** [executeAction] never throws; its effect written out. *)
Lemma executeAction_run (act : obj -> value -> obj) (data : value)
    (i : MachineInstance) :
  let pre := clone_obj (context i) in
  let gs := default [] (guards i) in
  let c := guards_ctx pre gs (act (context i) data) in
  executeAction act data i =
  {| result := inr tt;
     final := set_context c i;
     calls :=
       CallAction (context i) data ::
       guards_log pre gs (act (context i) data) ++
       (if negb (String.eqb (JSON_stringify pre) (JSON_stringify c))
        then notifications Context_Change
               {| snap_context := c; snap_state := stateID i |} (subscribers i)
        else []) |}.
Proof.
  intros pre gs c. subst pre gs c.
  unfold executeAction, bind, this, record, update. simpl.
  destruct (guards i) as [gs|]; simpl.
  - rewrite check_guards_run. simpl.
    destruct (negb _); simpl; rewrite ?app_nil_r; reflexivity.
  - destruct (negb _); simpl; reflexivity.
Qed.

Lemma outcome_eta {A} (r : outcome A) :
  {| result := result r; final := final r; calls := calls r |} = r.
Proof. now destruct r. Qed.

Lemma bind_this {A} (k : MachineInstance -> M A) (i : MachineInstance) :
  bind this k i = k i i.
Proof. unfold bind, this. cbn [result final calls app]. apply outcome_eta. Qed.

Lemma bind_update {A} (f : MachineInstance -> MachineInstance) (k : M A)
    (i : MachineInstance) :
  bind (update f) (fun _ => k) i = k (f i).
Proof. unfold bind, update. cbn [result final calls app]. apply outcome_eta. Qed.

Lemma start_cases (i : MachineInstance) :
  start i = setState (initialState i) i.
Proof. exact (bind_this (fun i => setState (initialState i)) i). Qed.

Lemma send_cases (event : string) (data : list value) (i : MachineInstance) :
  send event data i =
  match stateObject i with
  | None => {| result := inl TypeError; final := i; calls := [] |}
  | Some so =>
      match on so with
      | None => {| result := inl MissingEventTable; final := i; calls := [] |}
      | Some currentStateEvents =>
          match read_event currentStateEvents event with
          | None => {| result := inl UnknownEvent; final := i; calls := [] |}
          | Some eventObject =>
              run_handler (action eventObject) (target eventObject)
                (VArray data) i
          end
      end
  end.
Proof.
  unfold send. rewrite bind_this.
  destruct (stateObject i) as [so|]; [|reflexivity].
  destruct (on so) as [evs|]; [|reflexivity].
  destruct (read_event evs event) as [h|]; reflexivity.
Qed.

Lemma fire_cases (n : nat) (i : MachineInstance) :
  fire n i =
  match timers i !! n with
  | None => {| result := inr tt; final := i; calls := [] |}
  | Some t =>
      run_handler (afterEventAction t) (afterEventTarget t) VUndefined
        (set_timers (take n (timers i) ++ drop (S n) (timers i)) i)
  end.
Proof.
  unfold fire. rewrite bind_this.
  destruct (timers i !! n) as [t|]; [|reflexivity].
  exact (bind_update
           (fun j => set_timers (take n (timers j) ++ drop (S n) (timers j)) j)
           (run_handler (afterEventAction t) (afterEventTarget t) VUndefined) i).
Qed.

(** ** What the methods can throw *)

Lemma setState_throws (i : MachineInstance) (t : string) (e : error) :
  result (setState t i) = inl e -> e = UnknownState \/ e = TypeError.
Proof.
  rewrite setState_cases.
  destruct (read_state (statesImplementation i) t) as [def|]; simpl.
  - destruct (String.eqb t (stateID i)); simpl; [discriminate|].
    destruct (stateObject i); simpl; [discriminate|].
    intros [= <-]. now right.
  - intros [= <-]. now left.
Qed.

Lemma run_handler_throws (act : option (obj -> value -> obj))
    (tgt : option string) (data : value) (i : MachineInstance) (e : error) :
  result (run_handler act tgt data i) = inl e ->
  e = UnknownState \/ e = TypeError.
Proof.
  unfold run_handler, bind.
  assert (Hs : forall t j,
             result ((if truthy t then setState t else ret tt) j) = inl e ->
             e = UnknownState \/ e = TypeError).
  { intros t j. destruct (truthy t); [apply setState_throws|discriminate]. }
  destruct act as [a|].
  - rewrite executeAction_run. simpl.
    destruct tgt as [t|]; simpl; [apply Hs|discriminate].
  - simpl. destruct tgt as [t|]; simpl; [apply Hs|discriminate].
Qed.

(** X17. [send] throws the missing-event-table error exactly when the
    current state object has no [on] table, the unknown-event error
    exactly when that table exists and reading it at the event gives
    [undefined], that is when the event is neither an own key of the
    table nor the name of a member of [Object.prototype], and neither of
    the two otherwise; when it throws either of them it has changed
    nothing and called nothing: no action has run and no transition has
    been made. *)
Theorem send_missing_table_or_unreadable_event
    (i : MachineInstance) (event : string) (data : list value) :
  let r := send event data i in
  (result r = inl MissingEventTable <->
     exists so, stateObject i = Some so /\ on so = None) /\
  (result r = inl UnknownEvent <->
     exists so evs, stateObject i = Some so /\ on so = Some evs /\
                    evs !! event = None /\ prototype_member event = false) /\
  (result r = inl MissingEventTable \/ result r = inl UnknownEvent ->
     final r = i /\ calls r = []).
Proof.
  cbv zeta. rewrite send_cases.
  destruct (stateObject i) as [so|] eqn:Hso; simpl.
  2:{ split; [|split].
      - split; [discriminate|intros (so' & H & _); discriminate].
      - split; [discriminate|intros (so' & evs' & H & _); discriminate].
      - intros [H|H]; discriminate. }
  destruct (on so) as [evs|] eqn:Hon; simpl.
  2:{ split; [|split].
      - split; [eauto|reflexivity].
      - split; [discriminate|].
        intros (so' & evs' & [= <-] & Hon' & _). congruence.
      - intros _. split; reflexivity. }
  destruct (read_event evs event) as [h|] eqn:Hev; simpl.
  2:{ apply read_None in Hev as [Hev Hp]. split; [|split].
      - split; [discriminate|]. intros (so' & [= <-] & Hon'). congruence.
      - split; [eauto 8|reflexivity].
      - intros _. split; reflexivity. }
  assert (Hno : forall e,
             result (run_handler (action h) (target h) (VArray data) i) = inl e ->
             e <> MissingEventTable /\ e <> UnknownEvent).
  { intros e He. apply run_handler_throws in He.
    destruct He; subst e; split; discriminate. }
  split; [|split].
  - split.
    + intros H. apply Hno in H. now destruct H.
    + intros (so' & [= <-] & Hon'). congruence.
  - split.
    + intros H. apply Hno in H. now destruct H.
    + intros (so' & evs' & [= <-] & Hon' & Hev' & Hp).
      assert (Hn : read_event evs' event = None) by now apply read_None.
      congruence.
  - intros [H|H]; apply Hno in H; now destruct H.
Qed.

(** C2. The claim is not met for an event named like a member of
    [Object.prototype]. The demo machine is in [idle], whose [on] table
    exists and has no entry [toString]; [send] of [toString] should throw
    the unknown-event error, and throws nothing: [currentStateEvents[event]]
    reads the inherited function, which has no action and no target. *)
Theorem send_inherited_event_throws_nothing :
  let r := send "toString" [] demo_instance in
  (exists so evs,
     stateObject demo_instance = Some so /\ on so = Some evs /\
     evs !! "toString" = None) /\
  result r = inr tt /\
  final r = demo_instance /\
  calls r = [].
Proof.
  cbv zeta. split.
  - exists idle_state, idle_events. repeat split; vm_compute; reflexivity.
  - repeat split; vm_compute; reflexivity.
Qed.

(** ** An invariant of running instances *)

Lemma new_MachineInstance_defined (states : gmap string TStateObject)
    (initial : string) (ctx : obj) (gs : option (list (string * (obj -> bool)))) :
  is_Some (read_state states initial) ->
  current_state_defined (new_MachineInstance states initial ctx gs).
Proof. intros H. split; [exact H|reflexivity]. Qed.

Section Invariant.

Variable i : MachineInstance.
Hypothesis Hdef : current_state_defined i.

Lemma setState_defined (t : string) :
  current_state_defined (final (setState t i)).
Proof.
  rewrite setState_cases.
  destruct (read_state (statesImplementation i) t) as [def|] eqn:Ht; [|exact Hdef].
  destruct (String.eqb t (stateID i)); simpl.
  - split; [eauto|]. simpl. now rewrite Ht.
  - destruct (stateObject i); [|exact Hdef].
    split; [eauto|]. simpl. now rewrite Ht.
Qed.

Lemma executeAction_defined (act : obj -> value -> obj) (data : value) :
  current_state_defined (final (executeAction act data i)).
Proof. rewrite executeAction_run. exact Hdef. Qed.

End Invariant.

Lemma run_handler_defined (act : option (obj -> value -> obj))
    (tgt : option string) (data : value) (i : MachineInstance) :
  current_state_defined i ->
  current_state_defined (final (run_handler act tgt data i)).
Proof.
  intros Hdef. unfold run_handler, bind.
  set (j := final (match act with
                   | Some a => executeAction a data
                   | None => ret tt
                   end i)).
  assert (Hj : current_state_defined j).
  { subst j. destruct act; [now apply executeAction_defined|exact Hdef]. }
  assert (Hr : result (match act with
                       | Some a => executeAction a data
                       | None => ret tt
                       end i) = inr tt).
  { destruct act; [now rewrite executeAction_run|reflexivity]. }
  rewrite Hr. cbn [final].
  destruct tgt as [t|]; [|exact Hj].
  destruct (truthy t); [now apply setState_defined|exact Hj].
Qed.

Lemma run_op_defined (o : op) (i : MachineInstance) :
  current_state_defined i -> current_state_defined (final (run_op o i)).
Proof.
  intros Hdef. destruct o as [|event data|s|s|n]; cbn [run_op].
  - rewrite start_cases. now apply setState_defined.
  - rewrite send_cases.
    destruct (stateObject i) as [so|]; [|exact Hdef].
    destruct (on so) as [evs|]; [|exact Hdef].
    destruct (read_event evs event) as [h|]; [|exact Hdef].
    now apply run_handler_defined.
  - exact Hdef.
  - exact Hdef.
  - rewrite fire_cases. destruct (timers i !! n) as [t|]; [|exact Hdef].
    now apply run_handler_defined.
Qed.

Lemma run_ops_defined (ops : list op) (i : MachineInstance) :
  current_state_defined i -> current_state_defined (last (run_ops ops i)).
Proof.
  revert i. induction ops as [|o ops IH]; intros i Hdef; simpl; [exact Hdef|].
  apply IH. now apply run_op_defined.
Qed.

(** ** Transitions *)

(** C3. A transition to a state [t] of the table, from an instance whose
    current state has a definition [cur]: the exit hook of [cur] is
    called, if there is one, exactly when [t] is not the current state,
    and the call sees the old value of [stateID]; then the entry hook of
    [t] is called, if there is one, in every case, and sees [stateID]
    already equal to [t]; then every subscriber is called once with
    [State-Change], in subscription order. Nothing else is called. *)
Theorem setState_exit_entry_notify
    (i : MachineInstance) (t : string) (def cur : TStateObject) :
  statesImplementation i !! t = Some def ->
  stateObject i = Some cur ->
  let r := setState t i in
  let c1 := if String.eqb t (stateID i) then context i
            else apply_hook (exit cur) (context i) in
  let c2 := apply_hook (entry def) c1 in
  result r = inr tt /\
  stateID (final r) = t /\
  stateObject (final r) = Some def /\
  context (final r) = c2 /\
  calls r =
    (if String.eqb t (stateID i) then []
     else hook_calls CallExit (exit cur) (stateID i) (context i))
    ++ hook_calls CallEntry (entry def) t c1
    ++ map (fun sub => CallSubscriber sub
                         {| snap_context := c2; snap_state := t |} State_Change)
           (subscribers i).
Proof.
  intros Ht Hcur. cbv zeta. rewrite setState_cases, (read_state_own _ _ _ Ht), Hcur.
  destruct (String.eqb t (stateID i)); simpl; repeat split; reflexivity.
Qed.

Lemma setState_exit_entry_notify_witness :
  calls (setState "busy" demo_instance) =
  [ CallExit "idle" [("count", VNumber 0)];
    CallEntry "busy" [("count", VNumber 0); ("idle_left", VBool true)];
    CallSubscriber 1
      {| snap_context := [("count", VNumber 0); ("idle_left", VBool true);
                          ("busy_entered", VBool true)];
         snap_state := "busy" |} State_Change;
    CallSubscriber 2
      {| snap_context := [("count", VNumber 0); ("idle_left", VBool true);
                          ("busy_entered", VBool true)];
         snap_state := "busy" |} State_Change ].
Proof.
  apply (setState_exit_entry_notify demo_instance "busy" busy_state idle_state);
    vm_compute; reflexivity.
Defined.

(** ** The guard loop *)

Section GuardLoop.

(** The snapshot taken before the action. *)
Variable pre : obj.

Lemma guard_step_get_ne (c : obj) (g : string * (obj -> bool)) (k : string) :
  k <> fst g -> obj_get k (guard_step pre c g) = obj_get k c.
Proof.
  intros Hne. unfold guard_step. destruct (snd g c); [reflexivity|].
  apply obj_get_set_ne. congruence.
Qed.

Lemma guard_step_get_eq (c : obj) (g : string * (obj -> bool)) :
  obj_get (fst g) (guard_step pre c g) =
  if snd g c then obj_get (fst g) c else obj_get (fst g) pre.
Proof.
  unfold guard_step. destruct (snd g c); [reflexivity|apply obj_get_set_eq].
Qed.

Lemma guards_ctx_get_other (gs : list (string * (obj -> bool)))
    (c : obj) (k : string) :
  k ∉ gs.*1 -> obj_get k (guards_ctx pre gs c) = obj_get k c.
Proof.
  revert c. induction gs as [|g gs IH]; intros c Hk; simpl; [reflexivity|].
  simpl in Hk. apply not_elem_of_cons in Hk as [Hne Hk].
  rewrite IH by assumption. now apply guard_step_get_ne.
Qed.

Lemma guards_log_key (gs : list (string * (obj -> bool)))
    (c : obj) (k : string) (L : obj) (v : bool) :
  CallGuard k L v ∈ guards_log pre gs c -> k ∈ gs.*1.
Proof.
  revert c. induction gs as [|g gs IH]; intros c; simpl.
  - intros H. now apply elem_of_nil in H.
  - intros H. apply elem_of_cons in H as [H|H].
    + injection H as -> _ _. apply elem_of_cons. now left.
    + apply elem_of_cons. right. eauto.
Qed.

Lemma guards_log_verdict (gs : list (string * (obj -> bool)))
    (c : obj) (k : string) (p : obj -> bool) :
  (k, p) ∈ gs -> exists L, CallGuard k L (p L) ∈ guards_log pre gs c.
Proof.
  revert c. induction gs as [|g gs IH]; intros c H.
  - now apply elem_of_nil in H.
  - apply elem_of_cons in H as [<-|H]; simpl.
    + exists c. apply elem_of_cons. now left.
    + destruct (IH (guard_step pre c g) H) as [L HL].
      exists L. apply elem_of_cons. now right.
Qed.

(** Once the loop is over, a judged key holds the value its own verdict
    gave it: later turns touch other keys only. *)
Lemma guards_ctx_get_judged (gs : list (string * (obj -> bool)))
    (c : obj) (k : string) (L : obj) (v : bool) :
  NoDup gs.*1 ->
  CallGuard k L v ∈ guards_log pre gs c ->
  obj_get k (guards_ctx pre gs c) =
  if v then obj_get k c else obj_get k pre.
Proof.
  revert c. induction gs as [|g gs IH]; intros c Hnd H; simpl in *.
  - now apply elem_of_nil in H.
  - apply NoDup_cons in Hnd as [Hg Hnd].
    apply elem_of_cons in H as [H|H].
    + injection H as -> -> ->.
      rewrite guards_ctx_get_other by assumption.
      apply guard_step_get_eq.
    + rewrite (IH _ Hnd H).
      destruct v; [|reflexivity].
      apply guard_step_get_ne. intros ->.
      apply Hg. eapply guards_log_key, H.
Qed.

(** The context a guard is judged on holds, for the guard's own key, the
    value the action left: earlier turns touch other keys only. *)
Lemma guards_log_own_value (gs : list (string * (obj -> bool)))
    (c : obj) (k : string) (L : obj) (v : bool) :
  NoDup gs.*1 ->
  CallGuard k L v ∈ guards_log pre gs c ->
  obj_get k L = obj_get k c.
Proof.
  revert c. induction gs as [|g gs IH]; intros c Hnd H; simpl in *.
  - now apply elem_of_nil in H.
  - apply NoDup_cons in Hnd as [Hg Hnd].
    apply elem_of_cons in H as [H|H].
    + now injection H as -> -> ->.
    + rewrite (IH _ Hnd H). apply guard_step_get_ne. intros ->.
      apply Hg. eapply guards_log_key, H.
Qed.

Lemma guards_log_is_verdict (gs : list (string * (obj -> bool)))
    (c : obj) (k : string) (L : obj) (v : bool) :
  CallGuard k L v ∈ guards_log pre gs c ->
  exists p, (k, p) ∈ gs /\ v = p L.
Proof.
  revert c. induction gs as [|[k0 p0] gs IH]; intros c H; simpl in *.
  - now apply elem_of_nil in H.
  - apply elem_of_cons in H as [H|H].
    + injection H as -> -> ->. exists p0. split; [apply elem_of_cons; now left|reflexivity].
    + destruct (IH _ H) as (p & Hp & Hv).
      exists p. split; [apply elem_of_cons; now right|exact Hv].
Qed.

Lemma guards_ctx_app (gs1 gs2 : list (string * (obj -> bool)))
    (c : obj) :
  guards_ctx pre (gs1 ++ gs2) c = guards_ctx pre gs2 (guards_ctx pre gs1 c).
Proof.
  revert c. induction gs1 as [|g gs1 IH]; intros c; simpl; [reflexivity|apply IH].
Qed.

Lemma guards_log_app (gs1 gs2 : list (string * (obj -> bool)))
    (c : obj) :
  guards_log pre (gs1 ++ gs2) c =
  guards_log pre gs1 c ++ guards_log pre gs2 (guards_ctx pre gs1 c).
Proof.
  revert c. induction gs1 as [|g gs1 IH]; intros c; simpl; [reflexivity|].
  now rewrite IH.
Qed.

Lemma guards_log_length (gs : list (string * (obj -> bool)))
    (c : obj) :
  length (guards_log pre gs c) = length gs.
Proof.
  revert c. induction gs as [|g gs IH]; intros c; simpl; [reflexivity|].
  now rewrite IH.
Qed.

Lemma filter_guard_calls_log (gs : list (string * (obj -> bool)))
    (c : obj) :
  filter is_guard_call (guards_log pre gs c) = guards_log pre gs c.
Proof.
  revert c. induction gs as [|g gs IH]; intros c; simpl; [reflexivity|].
  rewrite filter_cons_True by exact I. now rewrite IH.
Qed.

End GuardLoop.

Lemma filter_guard_calls_notifications (ty : eventType) (snap : snapshot)
    (subs : list subscriber) :
  filter is_guard_call (notifications ty snap subs) = [].
Proof.
  induction subs as [|s subs IH]; simpl; [reflexivity|].
  rewrite filter_cons_False by (simpl; tauto). exact IH.
Qed.

(** The calls of [executeAction]: the action, the guard turns, and a
    notification pass or nothing. *)
Lemma executeAction_calls (act : obj -> value -> obj) (data : value)
    (i : MachineInstance) :
  exists tail,
    calls (executeAction act data i) =
      CallAction (context i) data ::
      guards_log (context i) (default [] (guards i)) (act (context i) data) ++ tail /\
    filter is_guard_call tail = [] /\
    context (final (executeAction act data i)) =
      guards_ctx (context i) (default [] (guards i)) (act (context i) data).
Proof.
  rewrite executeAction_run. simpl. rewrite clone_obj_id.
  eexists. split; [reflexivity|]. split; [|reflexivity].
  destruct (negb _); [apply filter_guard_calls_notifications|reflexivity].
Qed.

Lemma executeAction_guard_calls (act : obj -> value -> obj) (data : value)
    (i : MachineInstance) :
  filter is_guard_call (calls (executeAction act data i)) =
  guards_log (context i) (default [] (guards i)) (act (context i) data).
Proof.
  destruct (executeAction_calls act data i) as (tail & -> & Htail & _).
  rewrite filter_cons_False by (simpl; tauto).
  rewrite filter_app, Htail, app_nil_r. apply filter_guard_calls_log.
Qed.

(** C4. An action run on an instance with guards. Every guard is judged,
    each on a context in which the guard's own field holds the value the
    action gave it. If the guard rejects, that field, and no other, holds
    its value from the deep snapshot taken before the action again; a
    field whose guard accepted keeps the value the action gave it, and so
    does every field without a guard. The rollback is by field, never of
    the whole action. *)
Theorem executeAction_field_rollback
    (i : MachineInstance) (act : obj -> value -> obj) (data : value) :
  let gs := default [] (guards i) in
  NoDup gs.*1 ->
  let r := executeAction act data i in
  let snap := clone_obj (context i) in
  let post := act (context i) data in
  snap = context i /\
  (forall k p, (k, p) ∈ gs -> exists L, CallGuard k L (p L) ∈ calls r) /\
  (forall k L v, CallGuard k L v ∈ calls r ->
     obj_get k L = obj_get k post /\ exists p, (k, p) ∈ gs /\ v = p L) /\
  (forall k L, CallGuard k L false ∈ calls r ->
     obj_get k (context (final r)) = obj_get k snap) /\
  (forall k L, CallGuard k L true ∈ calls r ->
     obj_get k (context (final r)) = obj_get k post) /\
  (forall k, k ∉ gs.*1 -> obj_get k (context (final r)) = obj_get k post).
Proof.
  intros gs Hnd r snap post. subst r snap post.
  destruct (executeAction_calls act data i) as (tail & Hcalls & Htail & Hctx).
  fold gs in Hcalls, Hctx.
  assert (Hin : forall k L v,
             CallGuard k L v ∈ calls (executeAction act data i) ->
             CallGuard k L v ∈ guards_log (context i) gs (act (context i) data)).
  { intros k L v H.
    pose proof (executeAction_guard_calls act data i) as Hg. fold gs in Hg.
    rewrite <- Hg. apply list_elem_of_filter. split; [exact I|exact H]. }
  rewrite clone_obj_id, Hctx.
  split; [reflexivity|]. split; [|split; [|split; [|split]]].
  - intros k p Hkp.
    destruct (guards_log_verdict (context i) gs (act (context i) data) k p Hkp)
      as [L HL].
    exists L. rewrite Hcalls. apply elem_of_cons. right.
    apply elem_of_app. now left.
  - intros k L v H. apply Hin in H. split.
    + eapply guards_log_own_value; eassumption.
    + eapply guards_log_is_verdict; eassumption.
  - intros k L H. apply Hin in H.
    now rewrite (guards_ctx_get_judged _ _ _ _ _ _ Hnd H).
  - intros k L H. apply Hin in H.
    now rewrite (guards_ctx_get_judged _ _ _ _ _ _ Hnd H).
  - intros k Hk. now apply guards_ctx_get_other.
Qed.

Lemma executeAction_field_rollback_witness :
  let r := executeAction raise_all VUndefined guarded_instance in
  obj_get "a" (context (final r)) = VNumber 5 /\
  obj_get "note" (context (final r)) = VString "new".
Proof.
  assert (Hnd : NoDup (default [] (guards guarded_instance)).*1)
    by (apply (bool_decide_unpack _); vm_compute; reflexivity).
  destruct (executeAction_field_rollback guarded_instance raise_all VUndefined Hnd)
    as (_ & _ & _ & Hrej & _ & Hfree).
  split.
  - apply (Hrej "a" [("a", VNumber 20); ("b", VNumber 15); ("note", VString "new")]).
    vm_compute. apply elem_of_cons. right. apply elem_of_cons. now left.
  - apply (Hfree "note").
    apply (bool_decide_unpack _). vm_compute. reflexivity.
Defined.

(** C10. With several guards, the guards are judged one after another in
    the enumeration order of their keys, each against the live context:
    the guard in position [length gs1] is judged on a context [L] in
    which every key rejected by an earlier turn already holds its value
    from before the action, and every other key still holds what the
    action wrote. *)
Theorem guards_judged_on_live_context
    (i : MachineInstance) (act : obj -> value -> obj) (data : value)
    (gs1 gs2 : list (string * (obj -> bool))) (g : string * (obj -> bool)) :
  default [] (guards i) = gs1 ++ g :: gs2 ->
  NoDup (gs1 ++ g :: gs2).*1 ->
  let r := executeAction act data i in
  let post := act (context i) data in
  let judged := filter is_guard_call (calls r) in
  length judged = length (gs1 ++ g :: gs2) /\
  exists L,
    judged !! length gs1 = Some (CallGuard (fst g) L (snd g L)) /\
    (forall k L', CallGuard k L' false ∈ take (length gs1) judged ->
       obj_get k L = obj_get k (context i)) /\
    (forall k L', CallGuard k L' true ∈ take (length gs1) judged ->
       obj_get k L = obj_get k post) /\
    (forall k, k ∉ gs1.*1 -> obj_get k L = obj_get k post).
Proof.
  intros Hgs Hnd r post judged. subst r post judged.
  rewrite executeAction_guard_calls, Hgs.
  split; [apply guards_log_length|].
  rewrite guards_log_app. simpl.
  set (pre := context i). set (post := act pre data).
  assert (Hlen : length (guards_log pre gs1 post) = length gs1)
    by apply guards_log_length.
  assert (Hnd1 : NoDup gs1.*1).
  { rewrite fmap_app in Hnd. now apply NoDup_app in Hnd as [? _]. }
  exists (guards_ctx pre gs1 post). split; [|split; [|split]].
  - rewrite <- Hlen. apply list_lookup_middle. reflexivity.
  - intros k L' H. rewrite <- Hlen, take_app_length in H.
    now rewrite (guards_ctx_get_judged _ _ _ _ _ _ Hnd1 H).
  - intros k L' H. rewrite <- Hlen, take_app_length in H.
    now rewrite (guards_ctx_get_judged _ _ _ _ _ _ Hnd1 H).
  - intros k Hk. now apply guards_ctx_get_other.
Qed.

(** On the demo instance the guard of [b] accepts the context the action
    left ([15 <= 20]) but is judged after [a] went back to 5, and rejects. *)
Lemma guards_judged_on_live_context_witness :
  let r := executeAction raise_all VUndefined guarded_instance in
  b_below_a (raise_all (context guarded_instance) VUndefined) = true /\
  exists L,
    filter is_guard_call (calls r) !! 1 = Some (CallGuard "b" L false) /\
    obj_get "a" L = VNumber 5.
Proof.
  split; [reflexivity|].
  destruct (guards_judged_on_live_context guarded_instance raise_all VUndefined
              [("a", a_small)] [] ("b", b_below_a))
    as (_ & L & Hj & Hrej & _).
  - reflexivity.
  - apply (bool_decide_unpack _). vm_compute. reflexivity.
  - assert (Hc : filter is_guard_call
                   (calls (executeAction raise_all VUndefined guarded_instance))
                 !! 1
                 = Some (CallGuard "b"
                           [("a", VNumber 5); ("b", VNumber 15);
                            ("note", VString "new")] false))
      by (vm_compute; reflexivity).
    assert (Hj' : Some (CallGuard "b"
                          [("a", VNumber 5); ("b", VNumber 15);
                           ("note", VString "new")] false)
                  = Some (CallGuard "b" L (b_below_a L)))
      by (rewrite <- Hc; exact Hj).
    injection Hj' as HL Hv.
    exists L. split.
    + rewrite Hc. now subst L.
    + apply (Hrej "a" [("a", VNumber 20); ("b", VNumber 15);
                       ("note", VString "new")]).
      vm_compute. apply elem_of_cons. now left.
Defined.

(** ** Context-change notifications *)

Lemma filter_notifications_log (pre : obj) (gs : list (string * (obj -> bool)))
    (c : obj) :
  filter is_notification (guards_log pre gs c) = [].
Proof.
  revert c. induction gs as [|g gs IH]; intros c; simpl; [reflexivity|].
  rewrite filter_cons_False by (simpl; tauto). apply IH.
Qed.

Lemma filter_notifications_all (ty : eventType) (snap : snapshot)
    (subs : list subscriber) :
  filter is_notification (notifications ty snap subs) = notifications ty snap subs.
Proof.
  induction subs as [|s subs IH]; simpl; [reflexivity|].
  rewrite filter_cons_True by exact I. now rewrite IH.
Qed.

(** C5, as the code has it. After an action and the guard reverts, every
    subscriber is called once with [Context-Change], in subscription
    order, if and only if the [JSON.stringify] text of the final context
    differs from that of the snapshot taken before the action; nobody is
    called otherwise, in particular when the final context is the
    snapshot, field for field and in the same order. *)
Theorem executeAction_context_change
    (i : MachineInstance) (act : obj -> value -> obj) (data : value) :
  let r := executeAction act data i in
  let snap := clone_obj (context i) in
  filter is_notification (calls r) =
    (if String.eqb (JSON_stringify snap) (JSON_stringify (context (final r)))
     then []
     else map (fun sub => CallSubscriber sub (current_snapshot (final r))
                            Context_Change) (subscribers i)) /\
  (context (final r) = context i -> filter is_notification (calls r) = []).
Proof.
  cbv zeta. rewrite executeAction_run. cbv zeta.
  cbn [calls final result context set_context].
  rewrite filter_cons_False by (simpl; tauto).
  rewrite filter_app, filter_notifications_log.
  destruct (String.eqb _ _) eqn:E; cbn [negb app].
  - split; reflexivity.
  - rewrite filter_notifications_all. split; [reflexivity|].
    intros Heq. rewrite Heq, clone_obj_id, String.eqb_refl in E. discriminate.
Qed.

(** The claim as worded fails on the code: putting a field back in a new
    position is reported although no field has changed its value. *)
Lemma reorder_is_reported :
  ~ reports_field_changes reorder_instance reinsert_a VUndefined.
Proof.
  unfold reports_field_changes. cbv zeta. intros [Hfire _].
  destruct Hfire as [k Hk].
  - exists 1, {| snap_context := [("b", VNumber 2); ("a", VNumber 1)];
                 snap_state := "idle" |}.
    vm_compute. apply elem_of_cons. right. apply elem_of_cons. now left.
  - apply Hk. vm_compute.
    destruct k as [|c k]; [reflexivity|].
    destruct c as [[] [] [] [] [] [] [] []]; try reflexivity;
      destruct k; reflexivity.
Qed.

(** The other direction fails too: a field changes from [[undefined]] to
    [[null]] and nobody is told. *)
Lemma hole_is_not_reported :
  ~ reports_field_changes hole_instance null_for_undefined VUndefined.
Proof.
  unfold reports_field_changes. cbv zeta. intros [_ Hfire].
  destruct Hfire as (sub & snap & H).
  - exists "a". vm_compute. discriminate.
  - vm_compute in H. apply elem_of_cons in H as [H|H]; [discriminate|].
    now apply elem_of_nil in H.
Qed.

(** ** The reading / editing session *)

(** The claim as worded fails on the code: the session makes three
    transitions (the one of [start] included) and two actions change the
    context, so the count of [Context-Change] notifications is two, not
    one, whenever the subscriber registers. *)
Lemma editor_session_counts_differ :
  ~ (let r := editor_session editor_instance in
     result r = inr {| snap_context := [("committed", VString "A");
                                        ("value", VString "A")];
                       snap_state := "reading" |} /\
     received 1 State_Change (calls r) = 2 /\
     received 1 Context_Change (calls r) = 1).
Proof.
  cbv zeta. intros (_ & _ & H). vm_compute in H. discriminate.
Qed.

(** C1, as the code has it. The session ends in state [reading] with
    field [committed] equal to field [value]; a subscriber registered
    before [start] is told of three state changes and two context changes,
    one registered right after [start] of two and two. *)
Theorem editor_session_outcome :
  let r := editor_session editor_instance in
  let r' := editor_session_late editor_instance in
  (exists snap, result r = inr snap /\
     snap_state snap = "reading" /\
     obj_get "committed" (snap_context snap) = obj_get "value" (snap_context snap) /\
     obj_get "value" (snap_context snap) <> obj_get "value" editor_context) /\
  received 1 State_Change (calls r) = 3 /\
  received 1 Context_Change (calls r) = 2 /\
  result r' = result r /\
  received 1 State_Change (calls r') = 2 /\
  received 1 Context_Change (calls r') = 2.
Proof.
  cbv zeta. split; [|vm_compute; repeat split; reflexivity].
  eexists. split; [vm_compute; reflexivity|].
  split; [reflexivity|]. split; [reflexivity|]. discriminate.
Qed.

(** ** Unsubscribing *)

Section Blind.

(** The subscriber that is removed. *)
Variable s : subscriber.

Lemma filter_not_to_hook_exit (hook : option (obj -> obj))
    (current : string) (c : obj) :
  filter (not_to s) (hook_calls CallExit hook current c) =
  hook_calls CallExit hook current c.
Proof. now destruct hook. Qed.

Lemma filter_not_to_hook_entry (hook : option (obj -> obj))
    (current : string) (c : obj) :
  filter (not_to s) (hook_calls CallEntry hook current c) =
  hook_calls CallEntry hook current c.
Proof. now destruct hook. Qed.

Lemma filter_not_to_notifications (ty : eventType)
    (snap : snapshot) (subs : list subscriber) :
  filter (not_to s) (notifications ty snap subs) =
  notifications ty snap (filter (fun sub => sub ≠ s) subs).
Proof.
  induction subs as [|x subs IH]; simpl; [reflexivity|].
  destruct (decide (x = s)) as [->|Hne].
  - rewrite filter_cons_False by (simpl; rewrite Nat.eqb_refl; simpl; tauto).
    rewrite filter_cons_False by tauto. exact IH.
  - rewrite filter_cons_True
      by (simpl; apply Nat.eqb_neq in Hne; now rewrite Hne).
    rewrite filter_cons_True by assumption. simpl. now rewrite IH.
Qed.

Lemma filter_not_to_guards_log (pre : obj)
    (gs : list (string * (obj -> bool))) (c : obj) :
  filter (not_to s) (guards_log pre gs c) = guards_log pre gs c.
Proof.
  revert c. induction gs as [|g gs IH]; intros c; simpl; [reflexivity|].
  rewrite filter_cons_True by exact I. now rewrite IH.
Qed.

Lemma blind_ret {A} (a : A) : blind_to s (ret a).
Proof. intros i. reflexivity. Qed.

Lemma blind_throw {A} (e : error) : blind_to s (@throw A e).
Proof. intros i. reflexivity. Qed.

Lemma blind_bind {A B} (c : M A) (k : A -> M B) :
  blind_to s c -> (forall a, blind_to s (k a)) -> blind_to s (bind c k).
Proof.
  intros Hc Hk i. unfold bind. cbv zeta. rewrite !Hc. simpl.
  destruct (result (c i)) as [e|a]; [reflexivity|].
  rewrite !Hk. simpl. now rewrite filter_app.
Qed.

Lemma blind_setState (t : string) : blind_to s (setState t).
Proof.
  intros i. rewrite !setState_cases. simpl.
  destruct (read_state (statesImplementation i) t) as [def|]; [|reflexivity].
  destruct (String.eqb t (stateID i)).
  - unfold entered, without. simpl. f_equal.
    now rewrite filter_app, filter_not_to_hook_entry, filter_not_to_notifications.
  - destruct (stateObject i) as [cur|]; [|reflexivity].
    unfold entered, without. simpl. f_equal.
    now rewrite !filter_app, filter_not_to_hook_exit, filter_not_to_hook_entry,
      filter_not_to_notifications.
Qed.

Lemma blind_executeAction (act : obj -> value -> obj)
    (data : value) :
  blind_to s (executeAction act data).
Proof.
  intros i. rewrite !executeAction_run. simpl. f_equal.
  rewrite filter_cons_True by exact I.
  rewrite filter_app, filter_not_to_guards_log.
  destruct (negb _); simpl; [|reflexivity].
  now rewrite filter_not_to_notifications.
Qed.

Lemma blind_run_handler (act : option (obj -> value -> obj))
    (tgt : option string) (data : value) :
  blind_to s (run_handler act tgt data).
Proof.
  unfold run_handler. apply blind_bind.
  - destruct act; [apply blind_executeAction|apply blind_ret].
  - intros _. destruct tgt as [t|]; [|apply blind_ret].
    destruct (truthy t); [apply blind_setState|apply blind_ret].
Qed.

Lemma blind_run_op (o : op) :
  o <> OpSubscribe s -> blind_to s (run_op o).
Proof.
  intros Ho i. destruct o as [|event data|s'|s'|n]; simpl.
  - rewrite !start_cases. apply blind_setState.
  - rewrite !send_cases. simpl.
    destruct (stateObject i) as [so|]; [|reflexivity].
    destruct (on so) as [evs|]; [|reflexivity].
    destruct (read_event evs event) as [h|]; [|reflexivity].
    apply blind_run_handler.
  - assert (Hne : s' ≠ s) by congruence.
    unfold subscribe, bind, update, ret, without, set_subscribers. simpl.
    rewrite filter_app, (filter_cons_True _ s') by assumption.
    rewrite filter_nil. reflexivity.
  - unfold unsubscribe, update, without, set_subscribers. simpl.
    rewrite !list_filter_filter.
    rewrite (list_filter_iff (fun x => x ≠ s' /\ x ≠ s) (fun x => x ≠ s /\ x ≠ s'))
      by tauto.
    reflexivity.
  - rewrite !fire_cases. simpl.
    destruct (timers i !! n) as [t|]; [|reflexivity].
    apply (blind_run_handler (afterEventAction t) (afterEventTarget t)
             VUndefined
             (set_timers (take n (timers i) ++ drop (S n) (timers i)) i)).
Qed.

Lemma run_ops_blind (ops : list op) (i : MachineInstance) :
  OpSubscribe s ∉ ops ->
  run_ops ops (without s i) =
  {| answers := answers (run_ops ops i);
     last := without s (last (run_ops ops i));
     heard := filter (not_to s) (heard (run_ops ops i)) |}.
Proof.
  revert i. induction ops as [|o ops IH]; intros i Hs; simpl; [reflexivity|].
  apply not_elem_of_cons in Hs as [Ho Hs].
  rewrite (blind_run_op o) by congruence. simpl.
  rewrite IH by assumption. simpl. now rewrite filter_app.
Qed.

End Blind.

(** C6. [subscribe] returns the closure that removes the subscriber by
    identity. Once the closure has been invoked, whatever calls follow
    (short of subscribing the same callback again), that callback is
    never called, and every other call, in particular every notification
    to a subscriber with another identity, is exactly the call that would
    have been made had the closure not been invoked. *)
Theorem unsubscribe_stops_only_that_subscriber
    (i : MachineInstance) (s : subscriber) (ops : list op) :
  OpSubscribe s ∉ ops ->
  (forall j, result (subscribe s j) = inr (unsubscribe s)) /\
  let kept := run_ops ops i in
  let removed := run_ops ops (final (unsubscribe s i)) in
  (forall snap ty, CallSubscriber s snap ty ∉ heard removed) /\
  heard removed = filter (not_to s) (heard kept) /\
  answers removed = answers kept /\
  context (last removed) = context (last kept) /\
  stateID (last removed) = stateID (last kept).
Proof.
  intros Hs. split; [reflexivity|]. cbv zeta.
  change (final (unsubscribe s i)) with (without s i).
  rewrite run_ops_blind by assumption. simpl.
  split; [|repeat split; reflexivity].
  intros snap ty H. apply list_elem_of_filter in H as [H _].
  simpl in H. now rewrite Nat.eqb_refl in H.
Qed.

Lemma unsubscribe_stops_only_that_subscriber_witness :
  heard (run_ops [OpStart; OpSend "go" [VNumber 7]]
           (final (unsubscribe 1 demo_instance))) =
  filter (not_to 1)
    (heard (run_ops [OpStart; OpSend "go" [VNumber 7]] demo_instance)).
Proof.
  apply (unsubscribe_stops_only_that_subscriber demo_instance 1
           [OpStart; OpSend "go" [VNumber 7]]).
  intros H.
  apply elem_of_cons in H as [H|H]; [discriminate|].
  apply elem_of_cons in H as [H|H]; [discriminate|].
  now apply elem_of_nil in H.
Defined.

(** ** An action followed by a transition that fails *)

Lemma run_handler_cases (act : option (obj -> value -> obj))
    (tgt : option string) (data : value) (i : MachineInstance) :
  let j := match act with
           | Some a => final (executeAction a data i)
           | None => i
           end in
  let heard := match act with
               | Some a => calls (executeAction a data i)
               | None => []
               end in
  run_handler act tgt data i =
  match tgt with
  | Some t =>
      if truthy t then
        {| result := result (setState t j);
           final := final (setState t j);
           calls := heard ++ calls (setState t j) |}
      else {| result := inr tt; final := j; calls := heard |}
  | None => {| result := inr tt; final := j; calls := heard |}
  end.
Proof.
  cbv zeta. unfold run_handler, bind. destruct act as [a|].
  - rewrite executeAction_run. cbn [result final calls].
    destruct tgt as [t|]; [destruct (truthy t)|];
      cbn [ret result final calls]; rewrite ?app_nil_r; reflexivity.
  - cbn [ret result final calls app].
    destruct tgt as [t|]; [destruct (truthy t)|]; reflexivity.
Qed.

(** X18. An event whose handler has an action and a target at which the
    table reads as [undefined], a non-empty string that is neither a key
    of the table nor the name of a member of [Object.prototype]: the
    action runs first and what it did stays (the context it left, the
    notifications it caused); then the unknown-state error is thrown,
    with [stateID] and [stateObject] as before the call and no hook
    called. The action and the transition are not one atomic step. *)
Theorem send_action_then_unknown_state
    (i : MachineInstance) (event : string) (data : list value)
    (so : TStateObject) (evs : gmap string handler) (h : handler)
    (act : obj -> value -> obj) (t : string) :
  stateObject i = Some so ->
  on so = Some evs ->
  evs !! event = Some h ->
  action h = Some act ->
  target h = Some t ->
  truthy t = true ->
  statesImplementation i !! t = None ->
  prototype_member t = false ->
  let r := send event data i in
  let ra := executeAction act (VArray data) i in
  result r = inl UnknownState /\
  final r = final ra /\
  calls r = calls ra /\
  stateID (final r) = stateID i /\
  stateObject (final r) = stateObject i /\
  filter is_hook_call (calls r) = [].
Proof.
  intros Hso Hon Hev Hact Htgt Htruthy Ht Hp. cbv zeta.
  rewrite send_cases, Hso, Hon, (read_event_own _ _ _ Hev), run_handler_cases,
    Hact, Htgt, Htruthy.
  rewrite setState_cases.
  assert (Htab : read_state
                   (statesImplementation (final (executeAction act (VArray data) i))) t
                 = None)
    by (rewrite executeAction_run; now apply read_None).
  rewrite Htab. cbn [result final calls]. rewrite app_nil_r.
  split; [reflexivity|]. split; [reflexivity|]. split; [reflexivity|].
  rewrite executeAction_run. cbn [result final calls].
  split; [reflexivity|]. split; [exact Hso|].
  rewrite filter_cons_False by (simpl; tauto).
  rewrite filter_app.
  assert (H1 : forall pre gs c, filter is_hook_call (guards_log pre gs c) = []).
  { intros pre gs. induction gs as [|g gs IH]; intros c; simpl; [reflexivity|].
    rewrite filter_cons_False by (simpl; tauto). apply IH. }
  assert (H2 : forall ty snap subs,
             filter is_hook_call (notifications ty snap subs) = []).
  { intros ty snap subs. induction subs as [|x subs IH]; simpl; [reflexivity|].
    rewrite filter_cons_False by (simpl; tauto). apply IH. }
  rewrite H1. destruct (negb _); [apply H2|reflexivity].
Qed.

Example send_lost_on_demo :
  let r := send "lost" [] demo_instance in
  result r = inl UnknownState /\
  stateID (final r) = "idle" /\
  context (final r) = [("count", VNumber 1)] /\
  received 1 Context_Change (calls r) = 1.
Proof. vm_compute. repeat split; reflexivity. Qed.

(** C7. The claim is not met for a target named like a member of
    [Object.prototype]. The handler of [leave] has an action and the
    target [toString], which is not a key of the table. The action runs
    and its effects stay, the subscriber hears the Context-Change; then
    no error is thrown: [this.statesImplementation[stateID]] reads the
    inherited function, the exit hook of [home] runs, [stateID] becomes
    [toString] and the subscriber hears a State-Change. *)
Theorem send_inherited_target_is_entered :
  let r := send "leave" [] home_instance in
  (exists so evs h act,
     stateObject home_instance = Some so /\ on so = Some evs /\
     evs !! "leave" = Some h /\ action h = Some act /\
     target h = Some "toString" /\
     statesImplementation home_instance !! "toString" = None) /\
  result r = inr tt /\
  stateID (final r) = "toString" /\
  stateObject (final r) = Some inherited_state /\
  context (final r) = [("acted", VBool true); ("home_left", VBool true)] /\
  calls r =
    [ CallAction [] (VArray []);
      CallSubscriber 1
        {| snap_context := [("acted", VBool true)]; snap_state := "home" |}
        Context_Change;
      CallExit "home" [("acted", VBool true)];
      CallSubscriber 1
        {| snap_context := [("acted", VBool true); ("home_left", VBool true)];
           snap_state := "toString" |}
        State_Change ].
Proof.
  cbv zeta. split.
  - eexists _, _, _, _. vm_compute. repeat split; reflexivity.
  - vm_compute. repeat split; reflexivity.
Qed.

(** The claim is not met either for a handler whose target is the empty
    string, which is not in the demo table: the action runs and changes
    the context, and then nothing is thrown, because
    [eventTarget && this.setState(eventTarget)] takes the empty string for
    no target. *)
Lemma send_blank_target_throws_nothing :
  let r := send "blank" [] demo_instance in
  (exists so evs h act,
     stateObject demo_instance = Some so /\ on so = Some evs /\
     evs !! "blank" = Some h /\ action h = Some act /\
     target h = Some EmptyString /\
     statesImplementation demo_instance !! EmptyString = None) /\
  result r = inr tt /\
  context (final r) = [("count", VNumber 2)] /\
  stateID (final r) = "idle".
Proof.
  cbv zeta. split.
  - eexists _, _, _, _. vm_compute. repeat split; reflexivity.
  - vm_compute. repeat split; reflexivity.
Qed.

Lemma send_action_then_unknown_state_witness :
  result (send "lost" [] demo_instance) = inl UnknownState /\
  stateID (final (send "lost" [] demo_instance)) = stateID demo_instance.
Proof.
  destruct (send_action_then_unknown_state demo_instance "lost" [] idle_state
              idle_events lost_handler
              (fun ctx _ => obj_set "count" (VNumber 1) ctx) "nowhere")
    as (Hres & _ & _ & Hst & _); try (vm_compute; reflexivity).
  split; [exact Hres|exact Hst].
Defined.

(** ** Delayed transitions *)

(** Entering a state adds one pending timer for each entry of its [after]
    table, in enumeration order, behind the timers already pending; this
    holds for a transition to the current state as well. *)
Lemma setState_schedules (i : MachineInstance) (t : string) (def : TStateObject) :
  statesImplementation i !! t = Some def ->
  result (setState t i) = inr tt ->
  timers (final (setState t i)) =
    timers i ++ map mk_timer (default [] (after def)).
Proof.
  intros Ht. rewrite setState_cases, (read_state_own _ _ _ Ht).
  assert (Hd : after_timers def = map mk_timer (default [] (after def)))
    by (unfold after_timers; now destruct (after def)).
  destruct (String.eqb t (stateID i)); simpl.
  - intros _. now rewrite Hd.
  - destruct (stateObject i); simpl; [|discriminate]. intros _. now rewrite Hd.
Qed.

Lemma setState_keeps_timers (i : MachineInstance) (t : string) :
  exists new, timers (final (setState t i)) = timers i ++ new.
Proof.
  rewrite setState_cases.
  destruct (read_state (statesImplementation i) t) as [def|]; simpl.
  - destruct (String.eqb t (stateID i)); simpl; [eauto|].
    destruct (stateObject i); simpl; [eauto|].
    exists []. now rewrite app_nil_r.
  - exists []. now rewrite app_nil_r.
Qed.

Lemma run_handler_keeps_timers (act : option (obj -> value -> obj))
    (tgt : option string) (data : value) (i : MachineInstance) :
  exists new, timers (final (run_handler act tgt data i)) = timers i ++ new.
Proof.
  rewrite run_handler_cases. cbv zeta.
  set (j := match act with
            | Some a => final (executeAction a data i)
            | None => i
            end).
  assert (Hj : timers j = timers i).
  { subst j. destruct act; [|reflexivity]. now rewrite executeAction_run. }
  assert (Hid : exists new, timers j = timers i ++ new)
    by (exists []; now rewrite app_nil_r).
  destruct tgt as [t|]; [|exact Hid].
  destruct (truthy t); [|exact Hid]. cbn [final].
  destruct (setState_keeps_timers j t) as [new Hnew].
  exists new. now rewrite Hnew, Hj.
Qed.

(** No top-level call cancels a pending timer: a call leaves every
    pending timer pending, in place, and only adds timers behind them;
    the one exception is the timer that the host is running. *)
Lemma run_op_keeps_timers (o : op) (i : MachineInstance) :
  exists new,
    timers (final (run_op o i)) =
    match o with
    | OpFire n => take n (timers i) ++ drop (S n) (timers i)
    | _ => timers i
    end ++ new.
Proof.
  destruct o as [|event data|s|s|n]; cbn [run_op].
  - rewrite start_cases. apply setState_keeps_timers.
  - rewrite send_cases.
    assert (Hid : exists new, timers i = timers i ++ new)
      by (exists []; now rewrite app_nil_r).
    destruct (stateObject i) as [so|]; [|exact Hid].
    destruct (on so) as [evs|]; [|exact Hid].
    destruct (read_event evs event) as [h|]; [|exact Hid].
    apply run_handler_keeps_timers.
  - exists []. now rewrite app_nil_r.
  - exists []. now rewrite app_nil_r.
  - rewrite fire_cases. destruct (timers i !! n) as [t|] eqn:Hn.
    + apply (run_handler_keeps_timers (afterEventAction t) (afterEventTarget t)
               VUndefined
               (set_timers (take n (timers i) ++ drop (S n) (timers i)) i)).
    + exists []. simpl. rewrite app_nil_r.
      apply lookup_ge_None in Hn.
      rewrite take_ge, drop_ge by lia. now rewrite app_nil_r.
Qed.

(** A pending timer that fires runs its action, if it has one, and then
    goes to its target, if that is a non-empty state of the table,
    whatever the current state is. *)
Lemma fire_action_then_transition
    (i : MachineInstance) (n : nat) (tm : timer) (t : string) (def : TStateObject) :
  timers i !! n = Some tm ->
  afterEventTarget tm = Some t ->
  truthy t = true ->
  statesImplementation i !! t = Some def ->
  is_Some (stateObject i) ->
  let r := fire n i in
  let j := set_timers (take n (timers i) ++ drop (S n) (timers i)) i in
  let ra := match afterEventAction tm with
            | Some a => executeAction a VUndefined j
            | None => ret tt j
            end in
  result r = inr tt /\
  stateID (final r) = t /\
  stateObject (final r) = Some def /\
  calls r = calls ra ++ calls (setState t (final ra)) /\
  final r = final (setState t (final ra)).
Proof.
  intros Hn Htgt Htruthy Ht [cur Hcur]. cbv zeta.
  rewrite fire_cases, Hn, run_handler_cases, Htgt, Htruthy. cbv zeta.
  set (j := set_timers (take n (timers i) ++ drop (S n) (timers i)) i).
  set (k := match afterEventAction tm with
            | Some a => final (executeAction a VUndefined j)
            | None => j
            end).
  assert (Hk : statesImplementation k = statesImplementation i /\
               stateObject k = Some cur).
  { subst k. destruct (afterEventAction tm); [rewrite executeAction_run|];
      simpl; auto. }
  destruct Hk as [Hk1 Hk2].
  assert (Hfin : match afterEventAction tm with
                 | Some a => executeAction a VUndefined j
                 | None => ret tt j
                 end =
                 {| result := inr tt; final := k;
                    calls := match afterEventAction tm with
                             | Some a => calls (executeAction a VUndefined j)
                             | None => []
                             end |}).
  { subst k. destruct (afterEventAction tm) as [a|]; [|reflexivity].
    rewrite executeAction_run. reflexivity. }
  rewrite Hfin. cbn [result final calls].
  rewrite setState_cases, Hk1, (read_state_own _ _ _ Ht), Hk2.
  destruct (String.eqb t (stateID k)); simpl; repeat split; reflexivity.
Qed.

Example fire_on_demo :
  let started := final (start demo_instance) in
  let r := fire 0 (final (send "go" [] started)) in
  stateID (final (send "go" [] started)) = "busy" /\
  result r = inr tt /\
  stateID (final r) = "busy" /\
  received 1 State_Change (calls r) = 1 /\
  timers (final r) = [].
Proof. vm_compute. repeat split; reflexivity. Qed.

(** C8. The claim is not met for a delayed transition whose target is
    the state named by the empty string, a declared state of the table:
    the timer set by [start] stays pending and fires, its action runs,
    and the transition to the target is not made: the instance stays in
    [armed], no hook is called and no subscriber is told, because
    [afterEventTarget && this.setState(afterEventTarget)] takes the empty
    string for no target. *)
Theorem fire_blank_target_stays :
  let started := final (start armed_instance) in
  let r := fire 0 started in
  is_Some (statesImplementation armed_instance !! EmptyString) /\
  (exists tm, timers started = [tm] /\ afterEventTarget tm = Some EmptyString) /\
  result r = inr tt /\
  context (final r) = [("rang", VBool true)] /\
  stateID (final r) = "armed" /\
  filter is_hook_call (calls r) = [] /\
  received 1 State_Change (calls r) = 0.
Proof.
  cbv zeta. split; [vm_compute; eauto|]. split.
  - eexists. vm_compute. split; reflexivity.
  - vm_compute. repeat split; reflexivity.
Qed.

(** The same test guards the transition of [send]. *)
Example send_blank_target_stays :
  let r := send "drop" [] (final (start armed_instance)) in
  result r = inr tt /\
  context (final r) = [("dropped", VBool true)] /\
  stateID (final r) = "armed".
Proof. vm_compute. repeat split; reflexivity. Qed.

Lemma run_ops_keep_timers (ops : list op) (i : MachineInstance) :
  (forall n, OpFire n ∉ ops) ->
  exists new, timers (last (run_ops ops i)) = timers i ++ new.
Proof.
  revert i. induction ops as [|o ops IH]; intros i Hno; simpl.
  - exists []. now rewrite app_nil_r.
  - destruct (IH (final (run_op o i))) as [new Hnew].
    { intros n Hn. apply (Hno n). apply elem_of_cons. now right. }
    destruct (run_op_keeps_timers o i) as [new' Hnew'].
    assert (Ho : match o with
                 | OpFire n => take n (timers i) ++ drop (S n) (timers i)
                 | _ => timers i
                 end = timers i).
    { destruct o as [| | | |n]; try reflexivity.
      exfalso. apply (Hno n). apply elem_of_cons. now left. }
    rewrite Ho in Hnew'. exists (new' ++ new).
    now rewrite Hnew, Hnew', app_assoc.
Qed.

(** X19. Every transition that goes through to a state of the table, to
    the current state as well, adds one pending timer for each entry of
    the entered state's [after] table. No call cancels a pending timer: every
    call leaves the pending timers pending and in place, and only the
    timer the host runs leaves the queue. A timer that fires runs its
    entry's action, if there is one, and then, when its entry's target is
    a non-empty key of the table, makes the transition to it, whatever
    state is current then. *)
Theorem delayed_transitions_are_never_cancelled (i : MachineInstance) :
  (forall t def,
     statesImplementation i !! t = Some def ->
     result (setState t i) = inr tt ->
     timers (final (setState t i)) =
       timers i ++ map mk_timer (default [] (after def))) /\
  (forall o, exists new,
     timers (final (run_op o i)) =
       match o with
       | OpFire n => take n (timers i) ++ drop (S n) (timers i)
       | _ => timers i
       end ++ new) /\
  (forall ops, (forall n, OpFire n ∉ ops) ->
     exists new, timers (last (run_ops ops i)) = timers i ++ new) /\
  (forall n tm,
     timers i !! n = Some tm ->
     fire n i =
       run_handler (afterEventAction tm) (afterEventTarget tm) VUndefined
         (set_timers (take n (timers i) ++ drop (S n) (timers i)) i)) /\
  (forall n tm t def,
     timers i !! n = Some tm ->
     afterEventTarget tm = Some t ->
     truthy t = true ->
     statesImplementation i !! t = Some def ->
     is_Some (stateObject i) ->
     let j := set_timers (take n (timers i) ++ drop (S n) (timers i)) i in
     let ra := match afterEventAction tm with
               | Some a => executeAction a VUndefined j
               | None => ret tt j
               end in
     result (fire n i) = inr tt /\
     stateID (final (fire n i)) = t /\
     stateObject (final (fire n i)) = Some def /\
     calls (fire n i) = calls ra ++ calls (setState t (final ra))).
Proof.
  split; [|split; [|split; [|split]]].
  - intros t def. apply setState_schedules.
  - intros o. apply run_op_keeps_timers.
  - intros ops. apply run_ops_keep_timers.
  - intros n tm Hn. now rewrite fire_cases, Hn.
  - intros n tm t def Hn Htgt Htruthy Ht Hso.
    destruct (fire_action_then_transition i n tm t def Hn Htgt Htruthy Ht Hso)
      as (H1 & H2 & H3 & H4 & _).
    cbv zeta. auto.
Qed.

(** On the demo machine: [start] sets the timer of [idle]; the event [go]
    leaves [idle] for [busy] and the timer is still pending; then it
    fires and the machine enters [busy] once more. *)
Lemma delayed_transitions_are_never_cancelled_witness :
  let started := final (start demo_instance) in
  let left := final (send "go" [] started) in
  timers started = timers demo_instance ++ map mk_timer (default [] (after idle_state)) /\
  stateID left = "busy" /\
  timers left = timers started /\
  stateID (final (fire 0 left)) = "busy" /\
  received 1 State_Change (calls (fire 0 left)) = 1.
Proof.
  cbv zeta.
  destruct (delayed_transitions_are_never_cancelled demo_instance)
    as (Hsched & _).
  destruct (delayed_transitions_are_never_cancelled
              (final (send "go" [] (final (start demo_instance)))))
    as (_ & _ & _ & _ & Hfire).
  split.
  - apply (Hsched "idle" idle_state); vm_compute; reflexivity.
  - split; [vm_compute; reflexivity|]. split; [vm_compute; reflexivity|].
    split.
    + eapply (Hfire 0 _ "busy" busy_state); vm_compute; eauto.
    + vm_compute. reflexivity.
Defined.

(** ** The configuration factory *)

Lemma clone_at_some (c : positive) (h : gmap positive obj) :
  exists l, Configuration.clone_at (Some c) h
            = (Some l, <[ l := clone_obj (h !!! c) ]> h) /\ l ∉ dom h.
Proof.
  exists (fresh (dom h)). split; [reflexivity|apply is_fresh].
Qed.



(** And one who supplies the initial state alone gets no context at all. *)
Lemma create_initial_only_leaves_context_undefined :
  ~ Configuration.fills_in_defaults Configuration.editor_configuration
      (Some {| Configuration.arg_context := None;
               Configuration.arg_initialState := Some "editing" |})
      Configuration.editor_heap.
Proof.
  unfold Configuration.fills_in_defaults. cbv zeta.
  intros (_ & l & H & _). discriminate H.
Qed.



(** * Further properties of the engine *)

(** ** Transitions that fail *)

(** X3. [setState] checks before it acts. It throws the unknown-state
    error exactly when the table reads as [undefined] at the target,
    that is when the target is neither a key of the table nor the name
    of a member of [Object.prototype]; it throws a type error exactly
    when the table can be read at the target, the target is not the
    current state and the instance has no current state object (its
    [exit] cannot be read); whenever it throws, the instance is as before
    and nothing has been called. *)
Theorem setState_throws_before_any_effect (i : MachineInstance) (t : string) :
  (result (setState t i) = inl UnknownState <->
     statesImplementation i !! t = None /\ prototype_member t = false) /\
  (result (setState t i) = inl TypeError <->
     (is_Some (statesImplementation i !! t) \/ prototype_member t = true) /\
     t <> stateID i /\
     stateObject i = None) /\
  (forall e, result (setState t i) = inl e ->
     final (setState t i) = i /\ calls (setState t i) = []).
Proof.
  rewrite setState_cases.
  destruct (read_state (statesImplementation i) t) as [def|] eqn:Ht.
  - assert (Hsome : is_Some (statesImplementation i !! t) \/
                    prototype_member t = true).
    { apply read_Some in Ht as [Ht|(_ & Ht & _)]; [left; eauto|now right]. }
    assert (Hnot : ~ (statesImplementation i !! t = None /\
                      prototype_member t = false)).
    { intros Hn. apply (read_None inherited_state) in Hn.
      unfold read_state in Ht. congruence. }
    destruct (String.eqb t (stateID i)) eqn:E.
    + apply String.eqb_eq in E. simpl.
      split; [split; [discriminate|intros Hn; now destruct Hnot]|].
      split; [split; [discriminate|intros (_ & Hne & _); contradiction]|].
      discriminate.
    + apply String.eqb_neq in E.
      destruct (stateObject i) as [cur|]; simpl.
      * split; [split; [discriminate|intros Hn; now destruct Hnot]|].
        split; [split; [discriminate|intros (_ & _ & H); discriminate]|].
        discriminate.
      * split; [split; [discriminate|intros Hn; now destruct Hnot]|].
        split; [split; [auto|reflexivity]|].
        intros e _. split; reflexivity.
  - apply read_None in Ht as [Ht Hp]. simpl.
    split; [split; [auto|reflexivity]|].
    split; [split; [discriminate|]|].
    + intros ([[x Hx]|Hx] & _); congruence.
    + intros e _. split; reflexivity.
Qed.

(** ** [start] *)

(** X1. [start] on an instance that is in its initial state, a state of
    the table: it does not throw, the exit hook is not called, the entry
    hook of the initial state is called once if there is one, then every
    subscriber is told of a state change, and the timers of the initial
    state are added to the queue. *)
Theorem start_in_initial_state (i : MachineInstance) (def : TStateObject) :
  statesImplementation i !! initialState i = Some def ->
  stateID i = initialState i ->
  let r := start i in
  let c := apply_hook (entry def) (context i) in
  result r = inr tt /\
  stateID (final r) = initialState i /\
  stateObject (final r) = Some def /\
  context (final r) = c /\
  calls r =
    hook_calls CallEntry (entry def) (initialState i) (context i)
    ++ map (fun sub => CallSubscriber sub
                         {| snap_context := c; snap_state := initialState i |}
                         State_Change) (subscribers i) /\
  timers (final r) = timers i ++ map mk_timer (default [] (after def)).
Proof.
  intros Ht Hst. cbv zeta. rewrite start_cases, setState_cases, (read_state_own _ _ _ Ht), Hst.
  rewrite String.eqb_refl. unfold entered, after_timers. simpl.
  repeat split; try reflexivity. now destruct (after def).
Qed.

Lemma start_in_initial_state_witness :
  calls (start demo_instance) =
  [ CallEntry "idle" [("count", VNumber 0)];
    CallSubscriber 1
      {| snap_context := [("count", VNumber 0); ("idle_entered", VBool true)];
         snap_state := "idle" |} State_Change;
    CallSubscriber 2
      {| snap_context := [("count", VNumber 0); ("idle_entered", VBool true)];
         snap_state := "idle" |} State_Change ].
Proof.
  apply (start_in_initial_state demo_instance idle_state); vm_compute; reflexivity.
Defined.

(** ** What every call keeps *)

Section BuiltOn.

Variable states : gmap string TStateObject.
Variable initial : string.
Variable gs : option (list (string * (obj -> bool))).

Lemma new_MachineInstance_built_on (ctx : obj) :
  built_on states initial gs (new_MachineInstance states initial ctx gs).
Proof.
  split; [reflexivity|]. split; [reflexivity|]. split; [reflexivity|].
  split; [reflexivity|]. split; [now left|].
  intros tm H. now apply elem_of_nil in H.
Qed.

Lemma setState_built_on (t : string) (i : MachineInstance) :
  built_on states initial gs i ->
  built_on states initial gs (final (setState t i)).
Proof.
  intros Hb. rewrite setState_cases.
  destruct Hb as (Hs & Hi & Hg & Hso & Hst & Htm).
  assert (Hb : built_on states initial gs i)
    by (split; [|split; [|split; [|split; [|split]]]]; assumption).
  destruct (read_state (statesImplementation i) t) as [def|] eqn:Ht; [|exact Hb].
  assert (Hent : forall c l, built_on states initial gs (final (entered i t def c l))).
  { intros c l. unfold entered. simpl. rewrite Hs in Ht.
    split; [exact Hs|]. split; [exact Hi|]. split; [exact Hg|].
    split; [simpl; now rewrite Ht|]. split; [right; simpl; rewrite Ht; eauto|].
    simpl. intros tm H. apply elem_of_app in H as [H|H]; [now apply Htm|].
    unfold after_timers in H. destruct (after def) as [evs|] eqn:Ha.
    - apply list_elem_of_fmap in H as (e & -> & He).
      exists t, def, evs, e. eauto using read_state_after.
    - now apply elem_of_nil in H. }
  destruct (String.eqb t (stateID i)); [apply Hent|].
  destruct (stateObject i); [apply Hent|exact Hb].
Qed.

Lemma set_context_built_on (c : obj) (i : MachineInstance) :
  built_on states initial gs i -> built_on states initial gs (set_context c i).
Proof. intros H. exact H. Qed.

Lemma run_handler_built_on (act : option (obj -> value -> obj))
    (tgt : option string) (data : value) (i : MachineInstance) :
  built_on states initial gs i ->
  built_on states initial gs (final (run_handler act tgt data i)).
Proof.
  intros Hb. rewrite run_handler_cases. cbv zeta.
  set (j := match act with
            | Some a => final (executeAction a data i)
            | None => i
            end).
  assert (Hj : built_on states initial gs j).
  { subst j. destruct act; [|exact Hb]. rewrite executeAction_run. exact Hb. }
  destruct tgt as [t|]; [|exact Hj].
  destruct (truthy t); [|exact Hj]. now apply setState_built_on.
Qed.

Lemma run_op_built_on (o : op) (i : MachineInstance) :
  built_on states initial gs i ->
  built_on states initial gs (final (run_op o i)).
Proof.
  intros Hb. destruct o as [|event data|s|s|n]; cbn [run_op].
  - rewrite start_cases. now apply setState_built_on.
  - rewrite send_cases.
    destruct (stateObject i) as [so|]; [|exact Hb].
    destruct (on so) as [evs|]; [|exact Hb].
    destruct (read_event evs event) as [h|]; [|exact Hb].
    now apply run_handler_built_on.
  - exact Hb.
  - exact Hb.
  - rewrite fire_cases. destruct (timers i !! n) as [tm|]; [|exact Hb].
    apply run_handler_built_on.
    destruct Hb as (Hs & Hi & Hg & Hso & Hst & Htm).
    split; [exact Hs|]. split; [exact Hi|]. split; [exact Hg|].
    split; [exact Hso|]. split; [exact Hst|].
    simpl. intros tm' H. apply Htm.
    apply elem_of_app in H as [H|H].
    + now apply (subseteq_take n (timers i)).
    + now apply (subseteq_drop (S n) (timers i)).
Qed.

Lemma run_ops_built_on (ops : list op) (i : MachineInstance) :
  built_on states initial gs i ->
  built_on states initial gs (last (run_ops ops i)).
Proof.
  revert i. induction ops as [|o ops IH]; intros i Hb; simpl; [exact Hb|].
  apply IH. now apply run_op_built_on.
Qed.

End BuiltOn.

(** X5. Whatever calls are made on an instance after its construction,
    the state table, the initial state and the guards it was built with
    are never replaced, [stateObject] is always what the table reads at
    [stateID], and the current state is always the initial state, a key
    of the table or the name of a member of [Object.prototype]: no call
    can leave the instance in a state at which the table reads as
    [undefined], except the initial one it was given. *)
Theorem running_instance_stays_on_its_table
    (states : gmap string TStateObject) (initial : string) (ctx : obj)
    (gs : option (list (string * (obj -> bool)))) (ops : list op) :
  let i := last (run_ops ops (new_MachineInstance states initial ctx gs)) in
  statesImplementation i = states /\
  initialState i = initial /\
  guards i = gs /\
  stateObject i = read_state states (stateID i) /\
  (stateID i = initial \/ is_Some (states !! stateID i) \/
   prototype_member (stateID i) = true).
Proof.
  cbv zeta.
  destruct (run_ops_built_on states initial gs ops _
              (new_MachineInstance_built_on states initial gs ctx))
    as (H1 & H2 & H3 & H4 & H5 & _).
  split; [exact H1|]. split; [exact H2|]. split; [exact H3|].
  split; [exact H4|].
  destruct H5 as [H5|[def H5]]; [now left|right].
  apply read_Some in H5 as [H5|(_ & H5 & _)]; [left; eauto|now right].
Qed.

(** X6. Every timer that is ever pending was made from an entry of the
    [after] table of a state of the table, with that entry's target and
    action: the host can only ever run delayed transitions the table
    declares. *)
Theorem pending_timers_come_from_after_tables
    (states : gmap string TStateObject) (initial : string) (ctx : obj)
    (gs : option (list (string * (obj -> bool)))) (ops : list op) (tm : timer) :
  tm ∈ timers (last (run_ops ops (new_MachineInstance states initial ctx gs))) ->
  exists st def evs e,
    states !! st = Some def /\ after def = Some evs /\ e ∈ evs /\
    delay tm = fst e /\
    afterEventTarget tm = target (snd e) /\
    afterEventAction tm = action (snd e).
Proof.
  intros H.
  destruct (run_ops_built_on states initial gs ops _
              (new_MachineInstance_built_on states initial gs ctx))
    as (_ & _ & _ & _ & _ & Htm).
  destruct (Htm tm H) as (st & def & evs & e & H1 & H2 & H3 & ->).
  exists st, def, evs, e. repeat split; auto.
Qed.

Lemma pending_timers_come_from_after_tables_witness :
  exists st def evs e,
    demo_states !! st = Some def /\ after def = Some evs /\ e ∈ evs /\
    delay (mk_timer ("100", {| target := Some "busy"; action := None |})) = fst e /\
    afterEventTarget (mk_timer ("100", {| target := Some "busy"; action := None |}))
      = target (snd e) /\
    afterEventAction (mk_timer ("100", {| target := Some "busy"; action := None |}))
      = action (snd e).
Proof.
  apply (pending_timers_come_from_after_tables demo_states "idle" demo_context None
           [OpStart; OpSend "go" []]).
  vm_compute. apply elem_of_cons. now left.
Defined.

(** ** An initial state the table does not have *)

Lemma run_op_without_initial_state (o : op) (i : MachineInstance) :
  stateObject i = None ->
  read_state (statesImplementation i) (initialState i) = None ->
  timers i = [] ->
  let r := run_op o i in
  result r = match o with
             | OpStart => inl UnknownState
             | OpSend _ _ => inl TypeError
             | _ => inr tt
             end /\
  calls r = [] /\
  context (final r) = context i /\
  stateID (final r) = stateID i /\
  stateObject (final r) = None /\
  statesImplementation (final r) = statesImplementation i /\
  initialState (final r) = initialState i /\
  timers (final r) = [].
Proof.
  intros Hso Hinit Htm. cbv zeta.
  destruct o as [|event data|s|s|n]; cbn [run_op].
  - rewrite start_cases, setState_cases, Hinit. simpl. auto 10.
  - rewrite send_cases, Hso. simpl. auto 10.
  - unfold subscribe, bind, update, ret. simpl. auto 10.
  - unfold unsubscribe, update. simpl. auto 10.
  - rewrite fire_cases, Htm. simpl. auto 10.
Qed.

(** X4. An instance built on an initial state at which the table reads
    as [undefined], a name that is neither a key of the table nor the
    name of a member of [Object.prototype], never comes to life: every
    [start] throws the unknown-state error, every [send] throws a type
    error (there is no state object to read [on] from), and no call ever
    changes the context or the state, schedules a timer, or calls a hook,
    an action or a subscriber. *)
Theorem instance_without_initial_state_is_inert
    (states : gmap string TStateObject) (initial : string) (ctx : obj)
    (gs : option (list (string * (obj -> bool)))) (ops : list op) :
  states !! initial = None ->
  prototype_member initial = false ->
  let s := run_ops ops (new_MachineInstance states initial ctx gs) in
  answers s = map (fun o => match o with
                            | OpStart => inl UnknownState
                            | OpSend _ _ => inl TypeError
                            | _ => inr tt
                            end) ops /\
  heard s = [] /\
  context (last s) = ctx /\
  stateID (last s) = initial /\
  timers (last s) = [].
Proof.
  intros Hown Hproto.
  assert (Hinit : read_state states initial = None) by now apply read_None.
  cbv zeta.
  assert (Hgen : forall i,
             stateObject i = None ->
             read_state (statesImplementation i) (initialState i) = None ->
             timers i = [] ->
             answers (run_ops ops i)
               = map (fun o => match o with
                               | OpStart => inl UnknownState
                               | OpSend _ _ => inl TypeError
                               | _ => inr tt
                               end) ops /\
             heard (run_ops ops i) = [] /\
             context (last (run_ops ops i)) = context i /\
             stateID (last (run_ops ops i)) = stateID i /\
             timers (last (run_ops ops i)) = []).
  { induction ops as [|o ops IH]; intros i Hso Hi Htm; simpl; [auto|].
    destruct (run_op_without_initial_state o i Hso Hi Htm)
      as (Hr & Hc & Hctx & Hst & Hso' & Htab & Hini & Htm').
    destruct (IH (final (run_op o i))) as (Ha & Hh & Hctx' & Hst' & Htm'');
      [exact Hso'|now rewrite Htab, Hini|exact Htm'|].
    rewrite Hr, Ha, Hc, Hh, Hctx', Hst', Hctx, Hst. auto. }
  apply Hgen; [exact Hinit|exact Hinit|reflexivity].
Qed.

Lemma instance_without_initial_state_is_inert_witness :
  let s := run_ops [OpSubscribe 1; OpStart; OpSend "go" []; OpFire 0]
             (new_MachineInstance demo_states "nowhere" demo_context None) in
  answers s = [inr tt; inl UnknownState; inl TypeError; inr tt] /\
  heard s = [].
Proof.
  destruct (instance_without_initial_state_is_inert demo_states "nowhere"
              demo_context None
              [OpSubscribe 1; OpStart; OpSend "go" []; OpFire 0])
    as (Ha & Hh & _).
  - vm_compute. reflexivity.
  - vm_compute. reflexivity.
  - split; [exact Ha|exact Hh].
Defined.

(** ** Who is called *)

Lemma without_unregistered (s : subscriber) (i : MachineInstance) :
  s ∉ subscribers i -> without s i = i.
Proof.
  intros Hs. unfold without.
  assert (Hf : filter (fun sub => sub ≠ s) (subscribers i) = subscribers i).
  { induction (subscribers i) as [|x l IH]; [reflexivity|].
    apply not_elem_of_cons in Hs as [Hne Hs].
    rewrite filter_cons_True by congruence. now rewrite IH. }
  rewrite Hf. now destruct i.
Qed.

Lemma run_op_unregistered (s : subscriber) (o : op) (i : MachineInstance) :
  s ∉ subscribers i ->
  (forall snap ty, CallSubscriber s snap ty ∉ calls (run_op o i)) /\
  (o <> OpSubscribe s -> s ∉ subscribers (final (run_op o i))).
Proof.
  intros Hs.
  assert (Hcases : o = OpSubscribe s \/ o <> OpSubscribe s).
  { destruct o as [| |s'| |]; try (right; discriminate).
    destruct (decide (s' = s)) as [->|Hne]; [now left|right; congruence]. }
  destruct Hcases as [->|Ho].
  - split; [|congruence]. intros snap ty H. simpl in H.
    now apply elem_of_nil in H.
  - pose proof (blind_run_op s o Ho i) as Hb.
    rewrite (without_unregistered s i Hs) in Hb. split.
    + intros snap ty H. rewrite Hb in H. simpl in H.
      apply list_elem_of_filter in H as [H _]. simpl in H.
      now rewrite Nat.eqb_refl in H.
    + intros _ H. rewrite Hb in H. simpl in H.
      apply list_elem_of_filter in H as [H _]. now apply H.
Qed.

Lemma run_ops_called_subscriber (s : subscriber) (ops : list op)
    (i : MachineInstance) (snap : snapshot) (ty : eventType) :
  CallSubscriber s snap ty ∈ heard (run_ops ops i) ->
  s ∈ subscribers i \/ OpSubscribe s ∈ ops.
Proof.
  revert i. induction ops as [|o ops IH]; intros i H; simpl in H.
  - now apply elem_of_nil in H.
  - destruct (decide (s ∈ subscribers i)) as [Hin|Hs]; [now left|]. right.
    destruct (run_op_unregistered s o i Hs) as [Hcalls Hsubs].
    apply elem_of_app in H as [H|H]; [now apply Hcalls in H|].
    destruct (IH _ H) as [Hin|Hin].
    + apply elem_of_cons. left.
      destruct o as [| |s'| |];
        try (exfalso; apply Hsubs; [discriminate|exact Hin]).
      destruct (decide (s' = s)) as [->|Hne]; [reflexivity|].
      exfalso. apply Hsubs; [congruence|exact Hin].
    + apply elem_of_cons. now right.
Qed.

(** X7. A callback is never called unless it was subscribed: on an
    instance fresh from its constructor, every call made to a subscriber
    during any run of calls is a call to a callback that some [subscribe]
    of that run registered. *)
Theorem only_subscribed_callbacks_are_called
    (states : gmap string TStateObject) (initial : string) (ctx : obj)
    (gs : option (list (string * (obj -> bool)))) (ops : list op)
    (s : subscriber) (snap : snapshot) (ty : eventType) :
  CallSubscriber s snap ty
    ∈ heard (run_ops ops (new_MachineInstance states initial ctx gs)) ->
  OpSubscribe s ∈ ops.
Proof.
  intros H. apply run_ops_called_subscriber in H as [H|H]; [|exact H].
  simpl in H. now apply elem_of_nil in H.
Qed.

Lemma only_subscribed_callbacks_are_called_witness :
  OpSubscribe 7 ∈ [OpSubscribe 7; OpStart].
Proof.
  apply (only_subscribed_callbacks_are_called demo_states "idle" demo_context
           None [OpSubscribe 7; OpStart] 7
           {| snap_context := [("count", VNumber 0); ("idle_entered", VBool true)];
              snap_state := "idle" |} State_Change).
  vm_compute. apply elem_of_cons. right. apply elem_of_cons. now left.
Defined.

(** ** How often a subscriber is called *)

Lemma received_app (s : subscriber) (ty : eventType) (l1 l2 : list call) :
  received s ty (l1 ++ l2) = received s ty l1 + received s ty l2.
Proof. unfold received. now rewrite filter_app, length_app. Qed.

Lemma received_hook_calls (s : subscriber) (ty : eventType)
    (tag : string -> obj -> call) (hook : option (obj -> obj))
    (current : string) (c : obj) :
  tag = CallExit \/ tag = CallEntry ->
  received s ty (hook_calls tag hook current c) = 0.
Proof. intros [->| ->]; now destruct hook. Qed.

Lemma received_guards_log (s : subscriber) (ty : eventType) (pre : obj)
    (gs : list (string * (obj -> bool))) (c : obj) :
  received s ty (guards_log pre gs c) = 0.
Proof.
  unfold received. revert c.
  induction gs as [|g gs IH]; intros c; simpl; [reflexivity|].
  rewrite filter_cons_False by (simpl; tauto). apply IH.
Qed.

Lemma received_notifications (s : subscriber) (ty ty' : eventType)
    (snap : snapshot) (subs : list subscriber) :
  received s ty (notifications ty' snap subs) =
  if is_notification_of ty (CallSubscriber s snap ty')
  then registrations s subs else 0.
Proof.
  unfold received, registrations.
  induction subs as [|x subs IH]; simpl.
  - destruct ty, ty'; reflexivity.
  - destruct (decide (x = s)) as [->|Hne].
    + rewrite (filter_cons_True (fun sub => sub = s)) by reflexivity.
      destruct ty, ty'; simpl in *.
      * rewrite filter_cons_True by (simpl; now rewrite Nat.eqb_refl).
        simpl. now rewrite IH.
      * rewrite filter_cons_False
          by (simpl; rewrite Nat.eqb_refl; simpl; tauto). exact IH.
      * rewrite filter_cons_False
          by (simpl; rewrite Nat.eqb_refl; simpl; tauto). exact IH.
      * rewrite filter_cons_True by (simpl; now rewrite Nat.eqb_refl).
        simpl. now rewrite IH.
    + rewrite (filter_cons_False (fun sub => sub = s)) by assumption.
      rewrite filter_cons_False; [exact IH|].
      simpl. apply Nat.eqb_neq in Hne. rewrite Hne. simpl. tauto.
Qed.

(** X8. A callback registered several times is called that many times
    by each notification pass. A transition that goes through calls it
    once per registration with [State-Change] and never with
    [Context-Change]; an action calls it once per registration with
    [Context-Change] when the serialized context has changed, not at all
    otherwise, and never with [State-Change]. *)
Theorem every_registration_is_called
    (i : MachineInstance) (s : subscriber) :
  (forall t,
     result (setState t i) = inr tt ->
     received s State_Change (calls (setState t i))
       = registrations s (subscribers i) /\
     received s Context_Change (calls (setState t i)) = 0) /\
  (forall act data,
     let r := executeAction act data i in
     received s State_Change (calls r) = 0 /\
     received s Context_Change (calls r) =
       if String.eqb (JSON_stringify (context i))
                     (JSON_stringify (context (final r)))
       then 0 else registrations s (subscribers i)).
Proof.
  split.
  - intros t. rewrite setState_cases.
    destruct (read_state (statesImplementation i) t) as [def|]; [|discriminate].
    assert (He : forall c l,
               received s State_Change l = 0 ->
               received s Context_Change l = 0 ->
               received s State_Change (calls (entered i t def c l))
                 = registrations s (subscribers i) /\
               received s Context_Change (calls (entered i t def c l)) = 0).
    { intros c l H1 H2. unfold entered. simpl.
      rewrite !received_app, H1, H2, !received_hook_calls by auto.
      rewrite !received_notifications. simpl. auto. }
    destruct (String.eqb t (stateID i)); [intros _; now apply He|].
    destruct (stateObject i) as [cur|]; [|discriminate].
    intros _. apply He; now apply received_hook_calls; left.
  - intros act data. cbv zeta. rewrite executeAction_run. cbv zeta.
    cbn [calls final context set_context]. rewrite clone_obj_id.
    change (CallAction (context i) data :: ?l) with ([CallAction (context i) data] ++ l).
    rewrite !received_app, !received_guards_log.
    destruct (String.eqb _ _); cbn [negb].
    + split; reflexivity.
    + rewrite !received_notifications. split; reflexivity.
Qed.

Lemma every_registration_is_called_witness :
  received 1 State_Change
    (calls (setState "busy" (final (subscribe 1 demo_instance)))) = 2.
Proof.
  destruct (every_registration_is_called (final (subscribe 1 demo_instance)) 1)
    as [Hs _].
  destruct (Hs "busy") as [H _]; [vm_compute; reflexivity|].
  exact H.
Defined.

(** ** The closure returned by [subscribe], once more *)

Lemma subscribers_after_subscribing (s : subscriber) (k : nat)
    (i : MachineInstance) :
  subscribers (last (run_ops (replicate k (OpSubscribe s)) i))
  = subscribers i ++ replicate k s.
Proof.
  revert i. induction k as [|k IH]; intros i; simpl.
  - now rewrite app_nil_r.
  - rewrite IH. simpl. now rewrite <- app_assoc.
Qed.

Lemma filter_ne_replicate (s : subscriber) (k : nat) :
  filter (fun sub => sub ≠ s) (replicate k s) = [].
Proof.
  induction k as [|k IH]; simpl; [reflexivity|].
  rewrite filter_cons_False by tauto. exact IH.
Qed.

(** X9. The closure removes the callback by identity, every registration
    of it at once: however many times the callback was subscribed, one
    call of the closure leaves none, so the registrations are not tracked
    one by one. The other callbacks keep their registrations and their
    order; the closure calls nothing and never throws; calling it again,
    or calling it for a callback that is not registered, changes
    nothing. *)
Theorem unsubscribe_removes_every_registration
    (i : MachineInstance) (s : subscriber) :
  let j := final (unsubscribe s i) in
  result (unsubscribe s i) = inr tt /\
  calls (unsubscribe s i) = [] /\
  registrations s (subscribers j) = 0 /\
  (forall s', s' ≠ s ->
     registrations s' (subscribers j) = registrations s' (subscribers i)) /\
  subscribers j `sublist_of` subscribers i /\
  final (unsubscribe s j) = j /\
  (s ∉ subscribers i -> j = i) /\
  (forall k,
     final (unsubscribe s (last (run_ops (replicate k (OpSubscribe s)) j))) = j).
Proof.
  cbv zeta. change (final (unsubscribe s i)) with (without s i).
  split; [reflexivity|]. split; [reflexivity|].
  split; [|split; [|split; [|split; [|split]]]].
  - unfold registrations, without. simpl. rewrite list_filter_filter.
    rewrite (list_filter_iff _ (fun _ => False)) by tauto.
    induction (subscribers i) as [|x l IH]; [reflexivity|].
    now rewrite filter_cons_False by tauto.
  - intros s' Hne. unfold registrations, without. simpl.
    rewrite list_filter_filter. f_equal. apply list_filter_iff.
    intros x. split; [tauto|]. intros ->. auto.
  - unfold without. simpl. apply sublist_filter.
  - change (final (unsubscribe s (without s i))) with (without s (without s i)).
    apply without_unregistered. unfold without. simpl.
    intros H. apply list_elem_of_filter in H as [H _]. now apply H.
  - apply without_unregistered.
  - intros k.
    change (final (unsubscribe s ?x)) with (without s x).
    set (j := without s i).
    set (jk := last (run_ops (replicate k (OpSubscribe s)) j)).
    assert (Hsub : subscribers jk = subscribers j ++ replicate k s)
      by apply subscribers_after_subscribing.
    assert (Hrest : forall ops j0,
               (forall o, o ∈ ops -> exists s0, o = OpSubscribe s0) ->
               set_subscribers (subscribers j0) (last (run_ops ops j0)) = j0).
    { induction ops as [|o ops IH]; intros j0 Hall; simpl.
      - now destruct j0.
      - destruct (Hall o) as [s0 ->]; [apply elem_of_cons; now left|].
        pose proof (IH (final (run_op (OpSubscribe s0) j0))) as H.
        simpl in H.
        assert (Hall' : forall o, o ∈ ops -> exists s1, o = OpSubscribe s1)
          by (intros o Ho; apply Hall; apply elem_of_cons; now right).
        specialize (H Hall').
        apply (f_equal (set_subscribers (subscribers j0))) in H.
        simpl in H. unfold set_subscribers in *. simpl in *.
        destruct (last (run_ops ops _)); simpl in *.
        destruct j0; simpl in *. congruence. }
    assert (Hjk : set_subscribers (subscribers j) jk = j).
    { apply Hrest. intros o Ho. apply elem_of_replicate in Ho as [-> _]. eauto. }
    unfold without at 1. rewrite Hsub, filter_app, filter_ne_replicate, app_nil_r.
    assert (Hf : filter (fun sub => sub ≠ s) (subscribers j) = subscribers j).
    { subst j. unfold without. simpl. rewrite list_filter_filter.
      apply list_filter_iff. tauto. }
    rewrite Hf. exact Hjk.
Qed.

(** ** [send]: action and target *)

Lemma executeAction_no_hook_calls (act : obj -> value -> obj) (data : value)
    (i : MachineInstance) :
  filter is_hook_call (calls (executeAction act data i)) = [].
Proof.
  rewrite executeAction_run. cbn [calls].
  rewrite filter_cons_False by (simpl; tauto).
  rewrite filter_app.
  assert (H1 : forall pre gs c, filter is_hook_call (guards_log pre gs c) = []).
  { intros pre gs. induction gs as [|g gs IH]; intros c; simpl; [reflexivity|].
    rewrite filter_cons_False by (simpl; tauto). apply IH. }
  assert (H2 : forall ty snap subs,
             filter is_hook_call (notifications ty snap subs) = []).
  { intros ty snap subs. induction subs as [|x subs IH]; simpl; [reflexivity|].
    rewrite filter_cons_False by (simpl; tauto). apply IH. }
  rewrite H1. destruct (negb _); [apply H2|reflexivity].
Qed.

Lemma notifications_no_hook (ty : eventType) (snap : snapshot)
    (subs : list subscriber) (c : call) :
  c ∈ notifications ty snap subs -> is_hook_call c = false.
Proof.
  intros H. unfold notifications in H.
  apply list_elem_of_fmap in H as (x & -> & _). reflexivity.
Qed.

(** X10. An event whose handler has an action and a target: the action
    is called first, with the array of the extra arguments of [send] as
    its data (the empty array when there is none), and the transition
    starts from the instance as the action and the guards left it. So the
    exit hook of the state being left sees the context after the action,
    and it is still called under the old [stateID]; the result of [send]
    is the result of the transition. *)
Theorem send_action_then_transition
    (i : MachineInstance) (event : string) (data : list value)
    (so : TStateObject) (evs : gmap string handler) (h : handler)
    (act : obj -> value -> obj) (t : string) :
  stateObject i = Some so ->
  on so = Some evs ->
  evs !! event = Some h ->
  action h = Some act ->
  target h = Some t ->
  truthy t = true ->
  let r := send event data i in
  let ra := executeAction act (VArray data) i in
  let rt := setState t (final ra) in
  result r = result rt /\
  final r = final rt /\
  calls r = calls ra ++ calls rt /\
  (exists rest, calls r = CallAction (context i) (VArray data) :: rest) /\
  (forall st c, CallExit st c ∈ calls r ->
     st = stateID i /\ c = context (final ra)) /\
  (forall st c, CallEntry st c ∈ calls r -> st = t).
Proof.
  intros Hso Hon Hev Hact Htgt Htruthy. cbv zeta.
  rewrite send_cases, Hso, Hon, (read_event_own _ _ _ Hev), run_handler_cases, Hact, Htgt, Htruthy.
  cbn [result final calls].
  set (ra := executeAction act (VArray data) i).
  assert (Hra : forall c, c ∈ calls ra -> is_hook_call c = false).
  { intros c Hc. destruct (is_hook_call c) eqn:E; [|reflexivity].
    assert (Hin : c ∈ filter is_hook_call (calls ra))
      by (apply list_elem_of_filter; split; [now rewrite E|exact Hc]).
    subst ra. rewrite executeAction_no_hook_calls in Hin.
    now apply elem_of_nil in Hin. }
  assert (Hfin : stateID (final ra) = stateID i /\ stateObject (final ra) = Some so)
    by (subst ra; rewrite executeAction_run; simpl; auto).
  destruct Hfin as [Hst Hso'].
  split; [reflexivity|]. split; [reflexivity|]. split; [reflexivity|].
  split; [subst ra; rewrite executeAction_run; simpl; eauto|].
  assert (Hrt : forall c, c ∈ calls (setState t (final ra)) ->
             match c with
             | CallExit st x => st = stateID i /\ x = context (final ra)
             | CallEntry st _ => st = t
             | _ => True
             end).
  { rewrite setState_cases.
    destruct (read_state (statesImplementation (final ra)) t) as [def|];
      [|intros c Hc; now apply elem_of_nil in Hc].
    assert (He : forall x l c,
               (forall c', c' ∈ l ->
                  match c' with
                  | CallExit st y => st = stateID i /\ y = context (final ra)
                  | CallEntry st _ => st = t
                  | _ => True
                  end) ->
               c ∈ calls (entered (final ra) t def x l) ->
               match c with
               | CallExit st y => st = stateID i /\ y = context (final ra)
               | CallEntry st _ => st = t
               | _ => True
               end).
    { intros x l c Hl Hc. unfold entered in Hc. simpl in Hc.
      apply elem_of_app in Hc as [Hc|Hc]; [now apply Hl|].
      apply elem_of_app in Hc as [Hc|Hc].
      - destruct (entry def); simpl in Hc.
        + apply list_elem_of_singleton in Hc. now subst c.
        + now apply elem_of_nil in Hc.
      - apply notifications_no_hook in Hc. now destruct c. }
    destruct (String.eqb t (stateID (final ra))).
    - intros c. apply He. intros c' Hc'. now apply elem_of_nil in Hc'.
    - rewrite Hso'. intros c. apply He. intros c' Hc'.
      destruct (exit so); simpl in Hc'.
      + apply list_elem_of_singleton in Hc'. subst c'.
        split; [exact Hst|reflexivity].
      + now apply elem_of_nil in Hc'. }
  split.
  - intros st c Hc. apply elem_of_app in Hc as [Hc|Hc].
    + apply Hra in Hc. discriminate.
    + now apply Hrt in Hc.
  - intros st c Hc. apply elem_of_app in Hc as [Hc|Hc].
    + apply Hra in Hc. discriminate.
    + now apply Hrt in Hc.
Qed.

Lemma send_action_then_transition_witness :
  calls (send "go" [VNumber 7] demo_instance) =
  calls (executeAction (fun ctx d => obj_set "data" d ctx)
           (VArray [VNumber 7]) demo_instance)
  ++ calls (setState "busy"
              (final (executeAction (fun ctx d => obj_set "data" d ctx)
                        (VArray [VNumber 7]) demo_instance))).
Proof.
  apply (send_action_then_transition demo_instance "go" [VNumber 7]
           idle_state idle_events go_handler
           (fun ctx d => obj_set "data" d ctx) "busy");
    vm_compute; reflexivity.
Defined.

Lemma run_handler_no_target (act : option (obj -> value -> obj))
    (tgt : option string) (data : value) (i : MachineInstance) :
  tgt = None \/ tgt = Some EmptyString ->
  run_handler act tgt data i =
  match act with
  | Some a => executeAction a data i
  | None => {| result := inr tt; final := i; calls := [] |}
  end.
Proof.
  intros [-> | ->]; rewrite run_handler_cases; cbv zeta;
    [|change (truthy EmptyString) with false; cbv iota];
    (destruct act as [a|]; [rewrite executeAction_run|]; reflexivity).
Qed.

(** X15. The action and the target of a handler are optional one by one.
    Without a target (or with the empty string for one) [send] never
    throws and is the action alone: the state, its timers and the
    subscriber list stay as they are and no hook is called; with neither,
    [send] does nothing at all. Without an action, [send] is the
    transition alone and the extra arguments are ignored. *)
Theorem send_action_or_target_alone
    (i : MachineInstance) (event : string) (data : list value)
    (so : TStateObject) (evs : gmap string handler) (h : handler) :
  stateObject i = Some so ->
  on so = Some evs ->
  evs !! event = Some h ->
  let r := send event data i in
  (target h = None \/ target h = Some EmptyString ->
     result r = inr tt /\
     stateID (final r) = stateID i /\
     stateObject (final r) = stateObject i /\
     timers (final r) = timers i /\
     subscribers (final r) = subscribers i /\
     filter is_hook_call (calls r) = [] /\
     (forall act, action h = Some act -> r = executeAction act (VArray data) i) /\
     (action h = None -> final r = i /\ calls r = [])) /\
  (forall t, action h = None -> target h = Some t -> truthy t = true ->
     r = setState t i).
Proof.
  intros Hso Hon Hev. cbv zeta. rewrite send_cases, Hso, Hon, (read_event_own _ _ _ Hev). split.
  - intros Htgt. rewrite (run_handler_no_target _ _ _ _ Htgt).
    destruct (action h) as [a|].
    + pose proof (executeAction_no_hook_calls a (VArray data) i) as Hh.
      split; [now rewrite executeAction_run|].
      split; [now rewrite executeAction_run|].
      split; [now rewrite executeAction_run|].
      split; [now rewrite executeAction_run|].
      split; [now rewrite executeAction_run|].
      split; [exact Hh|].
      split; [|discriminate]. intros act [= <-]. reflexivity.
    + split; [reflexivity|]. split; [reflexivity|]. split; [exact Hso|].
      split; [reflexivity|]. split; [reflexivity|]. split; [reflexivity|].
      split; [discriminate|]. intros _. split; reflexivity.
  - intros t Hact Htgt Htruthy.
    rewrite run_handler_cases, Hact, Htgt, Htruthy.
    cbn [app]. apply outcome_eta.
Qed.

Lemma send_action_or_target_alone_witness :
  send "edit" [VString "A"]
    (final (send "edit" [] (final (start editor_instance))))
  = executeAction (fun ctx d => obj_set "value" d ctx) (VArray [VString "A"])
      (final (send "edit" [] (final (start editor_instance)))).
Proof.
  destruct (send_action_or_target_alone
              (final (send "edit" [] (final (start editor_instance))))
              "edit" [VString "A"] editing_state
              (<[ "save" :=
                    {| target := Some "reading";
                       action := Some (fun ctx _ =>
                         obj_set "committed" (obj_get "value" ctx) ctx) |} ]>
               {[ "edit" :=
                    {| target := None;
                       action := Some (fun ctx d => obj_set "value" d ctx) |} ]})
              {| target := None;
                 action := Some (fun ctx d => obj_set "value" d ctx) |})
    as [Hnone _];
    [vm_compute; reflexivity|vm_compute; reflexivity|vm_compute; reflexivity|].
  destruct Hnone as (_ & _ & _ & _ & _ & _ & Hact & _); [now left|].
  apply Hact. reflexivity.
Defined.

Lemma executeAction_context_change_run
    (i : MachineInstance) (act : obj -> value -> obj) (data : value) :
  filter is_notification (calls (executeAction act data i)) =
    (let c := guards_ctx (clone_obj (context i)) (default [] (guards i))
                (act (context i) data) in
     if String.eqb (JSON_stringify (clone_obj (context i))) (JSON_stringify c)
     then []
     else map (fun sub => CallSubscriber sub
                            {| snap_context := c; snap_state := stateID i |}
                            Context_Change) (subscribers i)).
Proof.
  rewrite executeAction_run. cbv zeta. cbn [calls].
  rewrite filter_cons_False by (simpl; tauto).
  rewrite filter_app, filter_notifications_log.
  destruct (String.eqb _ _); cbn [negb app]; [reflexivity|].
  apply filter_notifications_all.
Qed.

(** ** Guards that accept, actions that change nothing *)

Lemma guards_ctx_all_accept (pre : obj) (gs : list (string * (obj -> bool)))
    (c : obj) :
  (forall g, g ∈ gs -> snd g c = true) ->
  guards_ctx pre gs c = c /\
  guards_log pre gs c = map (fun g => CallGuard (fst g) c true) gs.
Proof.
  induction gs as [|g gs IH]; intros Hall; simpl; [auto|].
  assert (Hg : snd g c = true) by (apply Hall; apply elem_of_cons; now left).
  unfold guard_step. rewrite Hg.
  destruct IH as [IH1 IH2];
    [intros g' Hg'; apply Hall; apply elem_of_cons; now right|].
  now rewrite IH1, IH2.
Qed.

(** X11. When every guard accepts the context the action left (and when
    the instance has no guards), the context after the action is exactly
    what the action produced, each guard has been judged once on that
    same context, in order, and subscribers are told of a context change
    exactly when its serialization differs from the one before. *)
Theorem executeAction_all_guards_accept
    (i : MachineInstance) (act : obj -> value -> obj) (data : value) :
  let gs := default [] (guards i) in
  let post := act (context i) data in
  (forall g, g ∈ gs -> snd g post = true) ->
  let r := executeAction act data i in
  context (final r) = post /\
  filter is_guard_call (calls r) = map (fun g => CallGuard (fst g) post true) gs /\
  filter is_notification (calls r) =
    if String.eqb (JSON_stringify (context i)) (JSON_stringify post) then []
    else map (fun sub => CallSubscriber sub
                           {| snap_context := post; snap_state := stateID i |}
                           Context_Change) (subscribers i).
Proof.
  intros gs post Hall r. subst r.
  destruct (guards_ctx_all_accept (context i) gs post Hall) as [Hctx Hlog].
  split; [|split].
  - destruct (executeAction_calls act data i) as (tail & _ & _ & H).
    fold gs post in H. now rewrite H.
  - pose proof (executeAction_guard_calls act data i) as H.
    fold gs post in H. now rewrite H.
  - rewrite executeAction_context_change_run. cbv zeta. fold gs post.
    rewrite clone_obj_id, Hctx. reflexivity.
Qed.

Lemma executeAction_all_guards_accept_witness :
  context (final (executeAction (fun ctx _ => obj_set "b" (VNumber 4) ctx)
                    VUndefined guarded_instance))
  = [("a", VNumber 5); ("b", VNumber 4); ("note", VString "old")].
Proof.
  apply (executeAction_all_guards_accept guarded_instance
           (fun ctx _ => obj_set "b" (VNumber 4) ctx) VUndefined).
  intros g Hg. vm_compute in Hg.
  apply elem_of_cons in Hg as [->|Hg]; [reflexivity|].
  apply elem_of_cons in Hg as [->|Hg]; [reflexivity|].
  now apply elem_of_nil in Hg.
Defined.

Lemma obj_replace_same (k : string) (o : obj) :
  obj_replace k (obj_get k o) o = o.
Proof.
  induction o as [|[k' v'] o IH]; simpl; [reflexivity|].
  destruct (String.eqb k' k); [reflexivity|now rewrite IH].
Qed.

Lemma json_fields_insert_undefined (f : string * value -> option string)
    (n : N) (k : string) (o : obj) :
  f (k, VUndefined) = None ->
  omap f (obj_insert_index n k VUndefined o) = omap f o.
Proof.
  intros Hf. induction o as [|[k' v'] o IH]; simpl.
  - now rewrite Hf.
  - destruct (array_index k') as [n'|]; [destruct (n <? n')%N|]; simpl;
      rewrite ?Hf; try reflexivity.
    destruct (f (k', v')); [f_equal|]; exact IH.
Qed.

(** Writing back the value a property already reads as does not change
    the serialization: an existing property keeps its place, and a
    missing one is created with the value [undefined], which
    [JSON.stringify] leaves out. *)
Lemma JSON_stringify_set_same (k : string) (o : obj) :
  JSON_stringify (obj_set k (obj_get k o) o) = JSON_stringify o.
Proof.
  unfold obj_set. destruct (obj_has k o) eqn:Hhas.
  - now rewrite obj_replace_same.
  - rewrite (obj_get_absent k o Hhas). unfold JSON_stringify. simpl.
    destruct (array_index k) as [n|].
    + now rewrite json_fields_insert_undefined.
    + rewrite omap_app. simpl. now rewrite app_nil_r.
Qed.

Lemma guards_ctx_unchanged (pre : obj) (gs : list (string * (obj -> bool)))
    (c : obj) :
  (forall k, obj_get k c = obj_get k pre) ->
  JSON_stringify c = JSON_stringify pre ->
  (forall k, obj_get k (guards_ctx pre gs c) = obj_get k pre) /\
  JSON_stringify (guards_ctx pre gs c) = JSON_stringify pre.
Proof.
  revert c. induction gs as [|g gs IH]; intros c Hget Hjson; simpl; [auto|].
  apply IH.
  - intros k. unfold guard_step. destruct (snd g c); [apply Hget|].
    destruct (String.eqb (fst g) k) eqn:E.
    + apply String.eqb_eq in E. subst k. apply obj_get_set_eq.
    + apply String.eqb_neq in E. rewrite obj_get_set_ne by assumption.
      apply Hget.
  - unfold guard_step. destruct (snd g c); [exact Hjson|].
    rewrite <- (Hget (fst g)), JSON_stringify_set_same. exact Hjson.
Qed.

(** X12. An action that leaves the context as it found it never causes a
    context-change notification, whatever the guards answer: a guard that
    rejects writes back the value the field already has (or creates the
    field with the value [undefined]), so every field reads as before
    and the serialized context is the same. *)
Theorem executeAction_without_change_is_silent
    (i : MachineInstance) (act : obj -> value -> obj) (data : value) :
  act (context i) data = context i ->
  let r := executeAction act data i in
  filter is_notification (calls r) = [] /\
  (forall k, obj_get k (context (final r)) = obj_get k (context i)) /\
  JSON_stringify (context (final r)) = JSON_stringify (context i).
Proof.
  intros Hact r. subst r.
  destruct (executeAction_calls act data i) as (tail & _ & _ & Hctx).
  rewrite Hact in Hctx.
  destruct (guards_ctx_unchanged (context i) (default [] (guards i)) (context i))
    as [Hget Hjson]; [reflexivity|reflexivity|].
  rewrite executeAction_context_change_run. cbv zeta.
  rewrite Hact, clone_obj_id, Hctx, Hjson, String.eqb_refl.
  split; [reflexivity|]. split; [exact Hget|reflexivity].
Qed.

(** On the demo instance with [a = 50], the guard of [a] rejects and the
    guard of [b] accepts; the action does nothing and nobody is told. *)
Lemma executeAction_without_change_is_silent_witness :
  filter is_notification
    (calls (executeAction (fun ctx _ => ctx) VUndefined
              (set_context [("a", VNumber 50); ("b", VNumber 3)]
                 guarded_instance))) = [].
Proof.
  apply (executeAction_without_change_is_silent
           (set_context [("a", VNumber 50); ("b", VNumber 3)] guarded_instance)
           (fun ctx _ => ctx) VUndefined).
  reflexivity.
Defined.

(** ** [start], again and again *)

Lemma start_in_initial_run (i : MachineInstance) (def : TStateObject) :
  statesImplementation i !! initialState i = Some def ->
  stateID i = initialState i ->
  start i = entered i (initialState i) def (context i) [].
Proof.
  intros Ht Hst. rewrite start_cases, setState_cases, (read_state_own _ _ _ Ht), Hst.
  now rewrite String.eqb_refl.
Qed.

Lemma filter_hook_calls_notifications (ty : eventType) (snap : snapshot)
    (subs : list subscriber) :
  filter is_hook_call (notifications ty snap subs) = [].
Proof.
  induction subs as [|x subs IH]; simpl; [reflexivity|].
  rewrite filter_cons_False by (simpl; tauto). exact IH.
Qed.

(** X2. [start] does not remember that it ran. Called [k] times on an
    instance that is in its initial state, it succeeds each time, runs
    the entry hook of the initial state each time (and never an exit
    hook), tells every subscriber of a state change each time, and
    schedules the timers of the initial state each time, so that [k]
    copies of them are pending. *)
Theorem start_again_starts_again (i : MachineInstance) (def : TStateObject)
    (k : nat) :
  statesImplementation i !! initialState i = Some def ->
  stateID i = initialState i ->
  let s := run_ops (replicate k OpStart) i in
  answers s = replicate k (inr tt) /\
  stateID (last s) = initialState i /\
  timers (last s) =
    timers i ++ mjoin (replicate k (map mk_timer (default [] (after def)))) /\
  length (filter is_hook_call (heard s)) =
    k * length (hook_calls CallEntry (entry def) (initialState i) (context i)) /\
  (forall c, c ∈ heard s -> forall st x, c <> CallExit st x) /\
  (forall sub, received sub State_Change (heard s)
               = k * registrations sub (subscribers i)).
Proof.
  intros Ht Hst. cbv zeta. revert i Ht Hst.
  induction k as [|k IH]; intros i Ht Hst.
  - simpl. rewrite app_nil_r.
    split; [reflexivity|]. split; [exact Hst|]. split; [reflexivity|].
    split; [reflexivity|]. split; [|reflexivity].
    intros c Hc. now apply elem_of_nil in Hc.
  - cbn [replicate run_ops run_op answers last heard].
    rewrite (start_in_initial_run i def Ht Hst).
    set (j := final (entered i (initialState i) def (context i) [])).
    destruct (IH j) as (Ha & Hs & Htm & Hh & Hex & Hrec);
      [exact Ht|reflexivity|].
    assert (Hd : after_timers def = map mk_timer (default [] (after def)))
      by (unfold after_timers; now destruct (after def)).
    split; [simpl; now rewrite Ha|]. split; [exact Hs|].
    split; [rewrite Htm; subst j; simpl; now rewrite Hd, <- app_assoc|].
    split; [|split].
    + rewrite filter_app, length_app, Hh. unfold entered. cbn [calls app].
      rewrite filter_app, filter_hook_calls_notifications, app_nil_r.
      subst j. cbn [final initialState context].
      destruct (entry def); simpl; lia.
    + intros c Hc. apply elem_of_app in Hc as [Hc|Hc]; [|now apply Hex].
      unfold entered in Hc. cbn [calls app] in Hc.
      apply elem_of_app in Hc as [Hc|Hc].
      * destruct (entry def); simpl in Hc;
          [apply list_elem_of_singleton in Hc; subst c; discriminate|
           now apply elem_of_nil in Hc].
      * apply notifications_no_hook in Hc. intros st x ->. discriminate.
    + intros sub. rewrite received_app, Hrec. unfold entered. cbn [calls app].
      rewrite received_app, received_hook_calls by auto.
      rewrite received_notifications. subst j. simpl. lia.
Qed.

Lemma start_again_starts_again_witness :
  timers (last (run_ops (replicate 2 OpStart) demo_instance)) =
  timers demo_instance
  ++ mjoin (replicate 2 (map mk_timer (default [] (after idle_state)))).
Proof.
  apply (start_again_starts_again demo_instance idle_state 2);
    vm_compute; reflexivity.
Defined.

(** ** Instances made by the factory *)

Lemma setState_no_guard_calls (t : string) (i : MachineInstance) :
  filter is_guard_call (calls (setState t i)) = [] /\
  guards (final (setState t i)) = guards i.
Proof.
  rewrite setState_cases.
  assert (Hh : forall tag hook st c,
             tag = CallExit \/ tag = CallEntry ->
             filter is_guard_call (hook_calls tag hook st c) = [])
    by (intros tag hook st c [-> | ->]; now destruct hook).
  assert (He : forall def c l,
             filter is_guard_call l = [] ->
             filter is_guard_call (calls (entered i t def c l)) = [] /\
             guards (final (entered i t def c l)) = guards i).
  { intros def c l Hl. unfold entered. simpl. split; [|reflexivity].
    now rewrite !filter_app, Hl, Hh, filter_guard_calls_notifications by auto. }
  destruct (read_state (statesImplementation i) t) as [def|]; [|now split].
  destruct (String.eqb t (stateID i)); [now apply He|].
  destruct (stateObject i); [|now split]. apply He. apply Hh. now left.
Qed.

Lemma run_op_no_guard_calls (o : op) (i : MachineInstance) :
  guards i = None ->
  filter is_guard_call (calls (run_op o i)) = [] /\
  guards (final (run_op o i)) = None.
Proof.
  intros Hg.
  assert (Hrh : forall act tgt data j,
             guards j = None ->
             filter is_guard_call (calls (run_handler act tgt data j)) = [] /\
             guards (final (run_handler act tgt data j)) = None).
  { intros act tgt data j Hj. rewrite run_handler_cases. cbv zeta.
    assert (Ha : filter is_guard_call
                   match act with
                   | Some a => calls (executeAction a data j)
                   | None => []
                   end = [] /\
                 guards match act with
                        | Some a => final (executeAction a data j)
                        | None => j
                        end = None).
    { destruct act as [a|]; [|now split]. split.
      - now rewrite executeAction_guard_calls, Hj.
      - now rewrite executeAction_run. }
    destruct Ha as [Ha1 Ha2].
    destruct tgt as [t|]; [|now split].
    destruct (truthy t); [|now split]. cbn [calls final].
    destruct (setState_no_guard_calls t
                match act with
                | Some a => final (executeAction a data j)
                | None => j
                end) as [Hs1 Hs2].
    split; [now rewrite filter_app, Ha1, Hs1|now rewrite Hs2]. }
  destruct o as [|event data|s|s|n]; cbn [run_op].
  - rewrite start_cases.
    destruct (setState_no_guard_calls (initialState i) i) as [H1 H2].
    split; [exact H1|now rewrite H2].
  - rewrite send_cases.
    destruct (stateObject i) as [so|]; [|now split].
    destruct (on so) as [evs|]; [|now split].
    destruct (read_event evs event) as [h|]; [|now split].
    now apply Hrh.
  - now split.
  - now split.
  - rewrite fire_cases. destruct (timers i !! n) as [tm|]; [|now split].
    now apply Hrh.
Qed.

Lemma run_ops_no_guard_calls (ops : list op) (i : MachineInstance) :
  guards i = None ->
  filter is_guard_call (heard (run_ops ops i)) = [] /\
  guards (last (run_ops ops i)) = None.
Proof.
  revert i. induction ops as [|o ops IH]; intros i Hg; simpl; [now split|].
  destruct (run_op_no_guard_calls o i Hg) as [H1 H2].
  destruct (IH _ H2) as [H3 H4].
  split; [now rewrite filter_app, H1, H3|exact H4].
Qed.

(** X13. What the factory returns is an instance that has not started
    and has no guards. Its snapshot shows the initial state and the
    copied context, it has no subscriber and no pending timer, and
    [create] has called no hook. As [create] passes no guards to the
    constructor, no guard is ever judged on such an instance, whatever
    calls follow, and every action's result is kept as the action left
    it. *)
Theorem created_instance_is_idle_and_unguarded
    (cfg : Configuration.MachineConfiguration)
    (arg : option Configuration.create_argument) (h : gmap positive obj)
    (i : MachineInstance) :
  let r := Configuration.create cfg arg h in
  Configuration.instance_of (fst r) (snd r) = Some i ->
  statesImplementation i = Configuration.statesImplementation cfg /\
  stateID i = initialState i /\
  subscribers i = [] /\
  timers i = [] /\
  guards i = None /\
  result (getSnapshot i)
    = inr {| snap_context := context i; snap_state := initialState i |} /\
  (forall ops,
     filter is_guard_call (heard (run_ops ops i)) = [] /\
     forall act data,
       context (final (executeAction act data (last (run_ops ops i))))
       = act (context (last (run_ops ops i))) data).
Proof.
  cbv zeta. unfold Configuration.instance_of, Configuration.create.
  destruct (Configuration.clone_at _ h) as [c h'] eqn:Hc. simpl.
  destruct (Configuration.arg_initialState _) as [s|]; [|discriminate].
  destruct c as [l|]; [|discriminate].
  destruct (h' !! l) as [o|]; [|discriminate].
  intros [= <-]. simpl.
  split; [reflexivity|]. split; [reflexivity|]. split; [reflexivity|].
  split; [reflexivity|]. split; [reflexivity|]. split; [reflexivity|].
  intros ops.
  destruct (run_ops_no_guard_calls ops
              (new_MachineInstance (Configuration.statesImplementation cfg)
                 s o None) eq_refl) as [H1 H2].
  split; [exact H1|].
  intros act data.
  destruct (executeAction_calls act data
              (last (run_ops ops
                       (new_MachineInstance
                          (Configuration.statesImplementation cfg) s o None))))
    as (tail & _ & _ & Hctx).
  rewrite H2 in Hctx. exact Hctx.
Qed.

Lemma created_instance_is_idle_and_unguarded_witness :
  guards (new_MachineInstance editor_states "reading"
            (clone_obj editor_context) None) = None.
Proof.
  destruct (created_instance_is_idle_and_unguarded
              Configuration.editor_configuration None
              Configuration.editor_heap
              (new_MachineInstance editor_states "reading"
                 (clone_obj editor_context) None))
    as (_ & _ & _ & _ & Hg & _).
  - unfold Configuration.instance_of, Configuration.create. simpl.
    now rewrite lookup_insert_eq.
  - exact Hg.
Defined.

(** X14. Neither the constructor of the configuration nor [create]
    checks anything: the list of declared states is stored and never
    read, and a configuration whose initial state is missing from the
    state table still yields an instance. The fault shows only later.
    When the initial state is not the name of a member of
    [Object.prototype] either, [start] throws the unknown-state error and
    [send] a type error; when it is, the instance holds the inherited
    member as its state object, [start] succeeds and [send] throws the
    missing-event-table error. *)
Theorem create_checks_nothing
    (declare : list string) (states : gmap string TStateObject)
    (initial : string) (c : positive) (h : gmap positive obj) :
  let cfg := Configuration.new_MachineConfiguration declare states initial c in
  (forall declare' arg,
     Configuration.create
       (Configuration.new_MachineConfiguration declare' states initial c) arg h
     = Configuration.create cfg arg h) /\
  (states !! initial = None ->
   exists i,
     Configuration.instance_of (fst (Configuration.create cfg None h))
       (snd (Configuration.create cfg None h)) = Some i /\
     stateID i = initial /\
     if prototype_member initial then
       result (start i) = inr tt /\
       stateID (final (start i)) = initial /\
       (forall event data, result (send event data i) = inl MissingEventTable)
     else
       result (start i) = inl UnknownState /\
       (forall event data, result (send event data i) = inl TypeError)).
Proof.
  cbv zeta. split; [reflexivity|]. intros Hinit.
  exists (new_MachineInstance states initial (clone_obj (h !!! c)) None).
  split; [|split; [reflexivity|]].
  - unfold Configuration.instance_of, Configuration.create. simpl.
    now rewrite lookup_insert_eq.
  - destruct (prototype_member initial) eqn:Hp.
    + assert (Hr : read_state states initial = Some inherited_state)
        by (apply read_Some; right; auto).
      split; [|split].
      * rewrite start_cases, setState_cases. simpl. rewrite Hr.
        now rewrite String.eqb_refl.
      * rewrite start_cases, setState_cases. simpl. rewrite Hr.
        now rewrite String.eqb_refl.
      * intros event data. rewrite send_cases. simpl. now rewrite Hr.
    + assert (Hr : read_state states initial = None) by now apply read_None.
      split.
      * rewrite start_cases, setState_cases. simpl. now rewrite Hr.
      * intros event data. rewrite send_cases. simpl. now rewrite Hr.
Qed.

Lemma create_checks_nothing_witness :
  exists i,
    Configuration.instance_of
      (fst (Configuration.create
              (Configuration.new_MachineConfiguration ["reading"] editor_states
                 "writing" 1%positive) None Configuration.editor_heap))
      (snd (Configuration.create
              (Configuration.new_MachineConfiguration ["reading"] editor_states
                 "writing" 1%positive) None Configuration.editor_heap))
    = Some i /\
    stateID i = "writing" /\
    result (start i) = inl UnknownState /\
    (forall event data, result (send event data i) = inl TypeError).
Proof.
  apply (create_checks_nothing ["reading"] editor_states "writing" 1%positive
           Configuration.editor_heap).
  vm_compute. reflexivity.
Defined.

(** ** A rejected field that the action created *)

Lemma obj_has_replace (k k' : string) (v : value) (o : obj) :
  obj_has k' (obj_replace k v o) = obj_has k' o.
Proof.
  induction o as [|[k0 v0] o IH]; simpl; [reflexivity|].
  destruct (String.eqb k0 k); simpl; [reflexivity|now rewrite IH].
Qed.

Lemma obj_has_insert_index (n : N) (k k' : string) (v : value) (o : obj) :
  obj_has k' (obj_insert_index n k v o) = String.eqb k k' || obj_has k' o.
Proof.
  induction o as [|[k0 v0] o IH]; simpl; [reflexivity|].
  destruct (array_index k0) as [n'|]; [destruct (n <? n')%N|]; simpl;
    try reflexivity.
  rewrite IH. destruct (String.eqb k0 k'), (String.eqb k k'); reflexivity.
Qed.

Lemma obj_has_app (k k' : string) (v : value) (o : obj) :
  obj_has k' (o ++ [(k, v)]) = String.eqb k k' || obj_has k' o.
Proof.
  induction o as [|[k0 v0] o IH]; simpl.
  - now rewrite orb_false_r.
  - rewrite IH. destruct (String.eqb k0 k'), (String.eqb k k'); reflexivity.
Qed.

(** After [o[k] = v] the object has [k] and every property it had. *)
Lemma obj_has_set (k k' : string) (v : value) (o : obj) :
  obj_has k' (obj_set k v o) = String.eqb k k' || obj_has k' o.
Proof.
  unfold obj_set. destruct (obj_has k o) eqn:Hk.
  - rewrite obj_has_replace.
    destruct (String.eqb k k') eqn:E; [|reflexivity].
    apply String.eqb_eq in E. subst k'. now rewrite Hk.
  - destruct (array_index k); [apply obj_has_insert_index|apply obj_has_app].
Qed.

Lemma guards_ctx_has (pre : obj) (gs : list (string * (obj -> bool)))
    (c : obj) (k : string) :
  (obj_has k c = true -> obj_has k (guards_ctx pre gs c) = true) /\
  (forall L, CallGuard k L false ∈ guards_log pre gs c ->
             obj_has k (guards_ctx pre gs c) = true).
Proof.
  revert c. induction gs as [|g gs IH]; intros c; simpl.
  - split; [auto|]. intros L H. now apply elem_of_nil in H.
  - assert (Hstep : obj_has k c = true -> obj_has k (guard_step pre c g) = true).
    { intros H. unfold guard_step. destruct (snd g c); [exact H|].
      rewrite obj_has_set, H. apply orb_true_r. }
    split.
    + intros H. apply IH. now apply Hstep.
    + intros L H. apply elem_of_cons in H as [H|H]; [|now apply (IH _) in H].
      injection H as -> -> Hv. apply IH.
      unfold guard_step. rewrite <- Hv.
      now rewrite obj_has_set, String.eqb_refl.
Qed.

(** X16. The guard loop never removes a field. In particular the
    rollback of a field that did not exist before the action does not
    delete it: the field stays in the context, and when its key is not
    the name of a member of [Object.prototype] it holds [undefined]. *)
Theorem guard_rollback_never_deletes
    (i : MachineInstance) (act : obj -> value -> obj) (data : value) :
  let gs := default [] (guards i) in
  NoDup gs.*1 ->
  let r := executeAction act data i in
  let post := act (context i) data in
  (forall k, obj_has k post = true -> obj_has k (context (final r)) = true) /\
  (forall k L, CallGuard k L false ∈ calls r ->
     prototype_member k = false ->
     obj_has k (context (final r)) = true /\
     (obj_has k (context i) = false ->
      obj_get k (context (final r)) = VUndefined)).
Proof.
  intros gs Hnd r post. subst r post.
  destruct (executeAction_calls act data i) as (tail & _ & _ & Hctx).
  fold gs in Hctx. rewrite Hctx. split.
  - intros k Hk. now apply (guards_ctx_has (context i) gs _ k).
  - intros k L H _.
    assert (Hin : CallGuard k L false
                    ∈ guards_log (context i) gs (act (context i) data)).
    { pose proof (executeAction_guard_calls act data i) as Hg. fold gs in Hg.
      rewrite <- Hg. apply list_elem_of_filter. split; [exact I|exact H]. }
    split.
    + now apply (guards_ctx_has (context i) gs _ k) in Hin.
    + intros Hno. rewrite (guards_ctx_get_judged _ _ _ _ _ _ Hnd Hin).
      now apply obj_get_absent.
Qed.

(** On the demo instance an action creates field [a] anew, too large:
    the guard rejects it and [a] stays, undefined. *)
Lemma guard_rollback_never_deletes_witness :
  let i := set_context [("b", VNumber 3)] guarded_instance in
  let r := executeAction (fun ctx _ => obj_set "a" (VNumber 50) ctx) VUndefined i in
  obj_has "a" (context (final r)) = true /\
  obj_get "a" (context (final r)) = VUndefined.
Proof.
  cbv zeta.
  assert (Hnd : NoDup (default []
                  (guards (set_context [("b", VNumber 3)] guarded_instance))).*1)
    by (apply (bool_decide_unpack _); vm_compute; reflexivity).
  destruct (guard_rollback_never_deletes
              (set_context [("b", VNumber 3)] guarded_instance)
              (fun ctx _ => obj_set "a" (VNumber 50) ctx) VUndefined Hnd)
    as [_ Hrej].
  destruct (Hrej "a" [("b", VNumber 3); ("a", VNumber 50)]) as [Hhas Hget].
  - vm_compute. apply elem_of_cons. right. apply elem_of_cons. now left.
  - reflexivity.
  - split; [exact Hhas|]. apply Hget. reflexivity.
Defined.
